(** * Selection-bias pipeline: glyph mask, selection masker, panel renderer

    A shallow embedding of

    - [src/step5_create_masked.py]   ([create_masked_stipple]),
    - [src/step4_create_block_letter.py] ([create_block_letter_s]),
    - [src/create_meme.py]           ([create_statistics_meme]),

    together with the properties the specification states about them.

    Conventions of the embedding.

    - A Python [float] and a numpy [float64] element is a primitive
      binary64 float; a [float32] element is the binary64 float holding the
      same real number (every binary32 value is a binary64 value), computed
      by rounding at 24 bits.
    - A numpy array is its element type, its shape and its elements in
      row-major order.  An operation of a [float32] array with a Python
      [float] is carried out at [float32]: the scalar is rounded first.
    - Memory is not bounded: an allocation fails only where the library
      refuses the size by a check of its own.
    - numpy arrays are mutable objects: they live in a heap, and a Python
      variable holds a reference.  [ndarray.copy] allocates.
    - A raised exception is the left summand of the result.
    - The sources print diagnostics.  Printing changes neither an array nor
      a file and is left out, but an expression inside a diagnostic that can
      raise is kept ([letter_array.min()], [original_img.shape[1]]).
    - Pillow and matplotlib are collaborators outside the repository: the
      calls the sources make into them are the fields of an interface, and
      the theorems quantify over its implementations.  [Image.new] (with
      the checks Pillow makes on the size) and the conversion of an image
      into an array are modelled directly. *)

From Stdlib Require Import ZArith Lia Floats.
From Stdlib.Init Require Import Byte.
From stdpp Require Import base option list gmap strings pretty.

Set Warnings "-inexact-float,-clear-no-such-hyp".

(** ** Python exceptions *)

(** The exception classes that occur in the three sources or that the
    library calls they make can raise.  [InvalidReference] cannot be raised
    by Python code (a variable always refers to a live object); it makes
    dereferencing total in the model. *)
Inductive exn : Type :=
  | ValueError (msg : string)
  | OSError (msg : string)
  | AttributeError (msg : string)
  | OverflowError (msg : string)
  | MemoryError
  | OtherException (cls msg : string)
  | InvalidReference.

(** [except (OSError, IOError)]: [IOError] is an alias of [OSError]. *)
Definition is_OSError (e : exn) : bool :=
  match e with OSError _ => true | _ => false end.

(** [except AttributeError] *)
Definition is_AttributeError (e : exn) : bool :=
  match e with AttributeError _ => true | _ => false end.

Definition is_ValueError (e : exn) : bool :=
  match e with ValueError _ => true | _ => false end.

(** ** Floats *)

(** Re-encoding a float at another precision (rounding to nearest, ties to
    even, when it does not fit). *)
Definition round_to (p e : Z) (x : spec_float) : spec_float :=
  match x with
  | S754_finite s m ex => binary_round p e s m ex
  | _ => x
  end.

(** [np.float32(x)] of a double, as the double holding the same number:
    rounded to binary32, then re-encoded as a binary64. *)
Definition float32_of (x : float) : float :=
  SF2Prim (round_to 53 1024 (round_to 24 128 (Prim2SF x))).

(** ** numpy arrays *)

(** The element types that occur: [bool] (the result of a comparison),
    [float32] (the mask of [create_block_letter_s]) and [float64]. *)
Inductive np_dtype : Type := np_bool | np_float32 | np_float64.

(** [dtype] is [a.dtype]; [shape] the tuple [a.shape]; [data] the
    elements, row-major. *)
Record ndarray (A : Type) : Type := mk_ndarray {
  dtype : np_dtype;
  shape : list Z;
  data : list A
}.
Arguments mk_ndarray {A} _ _ _.
Arguments dtype {A} _.
Arguments shape {A} _.
Arguments data {A} _.

(** A Python [float] as an operand of an array of the given element type:
    numpy converts it to [float32] for a [float32] array and leaves it a
    double otherwise. *)
Definition as_dtype (dt : np_dtype) (x : float) : float :=
  match dt with
  | np_float32 => float32_of x
  | _ => x
  end.

(** [a.size]: the product of the dimensions. *)
Definition size_of_shape (sh : list Z) : Z := foldr Z.mul 1%Z sh.

(** An array object is well formed when no dimension is negative and it
    holds exactly [a.size] elements. *)
Definition wf_ndarray {A} (a : ndarray A) : Prop :=
  Forall (fun d => (0 <= d)%Z) (shape a) /\
  length (data a) = Z.to_nat (size_of_shape (shape a)).

(** [a[i, j]] of a two-dimensional array, for in-range non-negative
    indices. *)
Definition item2 {A} (a : ndarray A) (i j : Z) : option A :=
  match shape a with
  | [h; w] =>
      if bool_decide (0 <= i < h /\ 0 <= j < w)%Z
      then data a !! Z.to_nat (i * w + j)
      else None
  | _ => None
  end.

(** [repr] of a tuple of ints: [()], [(4,)], [(4, 5)]. *)
Definition repr_tuple (t : list Z) : string :=
  match t with
  | [] => "()"
  | [d] => "(" +:+ pretty d +:+ ",)"
  | _ => "(" +:+ String.concat ", " (pretty <$> t) +:+ ")"
  end.

(** [repr] of a list whose items have the given [repr]s. *)
Definition repr_list (items : list string) : string :=
  "[" +:+ String.concat ", " items +:+ "]".

(** [array < scalar]: a new boolean array of the same shape.  The
    comparison is made at the element type of the array: on a [float32]
    array the scalar is rounded to [float32] first. *)
Definition lt_scalar (a : ndarray float) (threshold : float) : ndarray bool :=
  mk_ndarray np_bool (shape a)
    ((fun x => PrimFloat.ltb x (as_dtype (dtype a) threshold)) <$> data a).

(** [a[region] = v] for a boolean array [region] of [a]'s shape: the
    elements of [a] at the positions where [region] is [True] become [v],
    converted to the element type of [a]. *)
Definition setitem_bool (a : ndarray float) (region : ndarray bool) (v : float)
  : ndarray float :=
  mk_ndarray (dtype a) (shape a)
    (imap (fun k x => if default false (data region !! k)
                      then as_dtype (dtype a) v else x) (data a)).

(** [np.sum(region)] of a boolean array: the number of [True] items. *)
Definition count_true (region : ndarray bool) : nat :=
  length (filter (fun b => b = true) (data region)).


(** The smaller and the larger of two floats, as [np.minimum] and
    [np.maximum] have them: a NaN operand is the result. *)
Definition float_min (x y : float) : float :=
  if PrimFloat.is_nan x then x
  else if PrimFloat.is_nan y then y
  else if (y <? x)%float then y else x.

Definition float_max (x y : float) : float :=
  if PrimFloat.is_nan x then x
  else if PrimFloat.is_nan y then y
  else if (x <? y)%float then y else x.

(** [(a.min(), a.max())]: numpy raises [ValueError] for an array with no
    element. *)
Definition value_range (a : ndarray float) : exn + (float * float) :=
  match data a with
  | [] =>
      inl (ValueError
             "zero-size array to reduction operation minimum which has no identity")
  | x :: rest => inr (foldl float_min x rest, foldl float_max x rest)
  end.

(** ** The state a call runs in, and the monad of stateful code that may raise *)

Definition loc := positive.

(** The array objects alive, by reference, and the files on disk, by path. *)
Record world : Type := mk_world {
  objects : gmap loc (ndarray float);
  files : gmap string (list byte)
}.

Definition M (A : Type) : Type := world -> (exn + A) * world.

Definition ret {A} (x : A) : M A := fun w => (inr x, w).

Definition raise {A} (e : exn) : M A := fun w => (inl e, w).

Definition bind {A B} (m : M A) (k : A -> M B) : M B :=
  fun w => match m w with
           | (inr x, w') => k x w'
           | (inl e, w') => (inl e, w')
           end.

Notation "x <- m ;; k" := (bind m (fun x => k))
  (at level 100, m at next level, right associativity).
Notation "m ;;; k" := (bind m (fun _ => k))
  (at level 100, right associativity).

(** Using a pure result inside the monad. *)
Definition lift {A} (r : exn + A) : M A := fun w => (r, w).

(** Reading the object a reference points to. *)
Definition deref (l : loc) : M (ndarray float) :=
  fun w => match objects w !! l with
           | Some a => (inr a, w)
           | None => (inl InvalidReference, w)
           end.

(** Allocating a new object: its reference is one no object has. *)
Definition alloc (a : ndarray float) : M loc :=
  fun w => let l := fresh (dom (objects w)) in
           (inr l, mk_world (<[l := a]> (objects w)) (files w)).

(** Overwriting the object a reference points to (in-place mutation). *)
Definition store (l : loc) (a : ndarray float) : M unit :=
  fun w => match objects w !! l with
           | Some _ => (inr tt, mk_world (<[l := a]> (objects w)) (files w))
           | None => (inl InvalidReference, w)
           end.

(** Writing a file, new or overwritten. *)
Definition write_file (path : string) (content : list byte) : M unit :=
  fun w => (inr tt, mk_world (objects w) (<[path := content]> (files w))).

(** [a.copy()]: a new object with the same shape and elements. *)
Definition ndarray_copy (l : loc) : M loc :=
  a <- deref l ;; alloc a.

(** ** [create_masked_stipple]  (src/step5_create_masked.py) *)

(** The message of the [ValueError] of lines 44-47. *)
Definition shape_mismatch_msg (stipple_shape mask_shape : list Z) : string :=
  "stipple_img shape " +:+ repr_tuple stipple_shape +:+
  " does not match mask_img shape " +:+ repr_tuple mask_shape.

(** Lines 43-77.  The statistics of lines 61-75 read [stipple_img],
    [mask_region] and [masked_stipple] and print; they write to no array
    and raise nothing (numpy's integer division by zero yields [nan] or
    [inf] with a warning), so the embedding passes over them. *)
Definition create_masked_stipple (stipple_img mask_img : loc) (threshold : float)
  : M loc :=
  stipple <- deref stipple_img ;;
  mask <- deref mask_img ;;
  if bool_decide (shape stipple <> shape mask) then
    raise (ValueError (shape_mismatch_msg (shape stipple) (shape mask)))
  else
    masked_stipple <- ndarray_copy stipple_img ;;
    mask <- deref mask_img ;;
    let mask_region := lt_scalar mask threshold in
    target <- deref masked_stipple ;;
    store masked_stipple (setitem_bool target mask_region 1%float) ;;;
    ret masked_stipple.

(** The array a successful call returns. *)
Definition biased_of (stipple mask : ndarray float) (threshold : float) : ndarray float :=
  setitem_bool stipple (lt_scalar mask threshold) 1%float.

(** A message names a shape when the shape's [repr] occurs in it. *)
Definition mentions (msg part : string) : Prop :=
  exists pre post : string, msg = pre +:+ part +:+ post.

(** What a caller observes of a call: the exception, or the contents of the
    returned array. *)
Definition observe (r : (exn + loc) * world) : exn + option (ndarray float) :=
  match r with
  | (inl e, _) => inl e
  | (inr l, w) => inr (objects w !! l)
  end.

(** Code that may raise and touches no state. *)
Definition ebind {A B} (r : exn + A) (k : A -> exn + B) : exn + B :=
  match r with
  | inl e => inl e
  | inr x => k x
  end.

Notation "x <-? r ;; k" := (ebind r (fun x => k))
  (at level 100, r at next level, right associativity).

(** ** Python numbers *)

(** [int(n * x)] for an [int] n and a [float] x, by the IEEE 754
    specification of binary64: n is converted to a double (round to nearest
    even; [OverflowError] beyond the range of a double), the product is
    rounded, and [int] truncates toward zero ([ValueError] on NaN,
    [OverflowError] on an infinity). *)
Definition int_mul (n : Z) (x : float) : exn + Z :=
  match binary_normalize prec emax n 0 false with
  | S754_infinity _ => inl (OverflowError "int too large to convert to float")
  | y =>
      match SFmul prec emax y (Prim2SF x) with
      | S754_zero _ => inr 0%Z
      | S754_finite s m e => inr (cond_Zopp s (Z.shiftl (Z.pos m) e))
      | S754_infinity _ =>
          inl (OverflowError "cannot convert float infinity to integer")
      | S754_nan => inl (ValueError "cannot convert float NaN to integer")
      end
  end.

(** Division of two [float32] values, rounded to [float32]. *)
Definition float32_div (x y : float) : float :=
  SF2Prim (round_to 53 1024
             (SFdiv 24 128 (round_to 24 128 (Prim2SF x)) (round_to 24 128 (Prim2SF y)))).

(** A [uint8] pixel as a float. *)
Definition float_of_byte (b : byte) : float :=
  SF2Prim (binary_normalize prec emax (Z.of_N (Byte.to_N b)) 0 false).

(** ** Pillow images *)

(** A mode-['L'] image: [im_width * im_height] 8-bit pixels, row-major,
    pixel (x, y) at index [y * im_width + x]. *)
Record image : Type := mk_image {
  im_width : Z;
  im_height : Z;
  im_data : list byte
}.

(** The largest width of an image: libImaging refuses a line of more than
    [INT_MAX / 4 - 1] pixels. *)
Definition max_line : Z := (2 ^ 31 - 1) / 4 - 1.

(** The [OverflowError] of CPython for an argument that does not fit a C
    [int].  Its text depends on the platform; this is the text where a C
    [long] has 64 bits. *)
Definition c_int_overflow (n : Z) : exn :=
  OverflowError (if bool_decide (n < 2 ^ 63)%Z
                 then "signed integer is greater than maximum"
                 else "Python int too large to convert to C long").

(** [Image.new('L', (width, height), color)].  Pillow checks the size
    ([_check_size]) and rejects a negative width or height with a
    [ValueError]; the width and the height are then passed to C as [int]s,
    an [OverflowError] from 2^31 on; libImaging refuses a width above
    [max_line] with a [MemoryError].  A zero width or height is an image
    with no pixels. *)
Definition Image_new (width height : Z) (color : byte) : exn + image :=
  if bool_decide (width < 0 \/ height < 0)%Z
  then inl (ValueError "Width and height must be >= 0")
  else if bool_decide (2 ^ 31 <= width)%Z
  then inl (c_int_overflow width)
  else if bool_decide (2 ^ 31 <= height)%Z
  then inl (c_int_overflow height)
  else if bool_decide (max_line < width)%Z
  then inl MemoryError
  else inr (mk_image width height (replicate (Z.to_nat (width * height)) color)).

(** What a drawing call does to the image it draws on: the new value of the
    pixel at (x, y), from its old value.  A drawing call never resizes the
    image and writes 8-bit values. *)
Definition painter : Type := Z -> Z -> byte -> byte.

Definition paint (p : painter) (img : image) : image :=
  mk_image (im_width img) (im_height img)
    (imap (fun k v => p (Z.of_nat k mod im_width img)%Z (Z.of_nat k / im_width img)%Z v)
          (im_data img)).

(** Two images of one size and one number of pixels. *)
Definition same_size (img img' : image) : Prop :=
  im_width img' = im_width img /\ im_height img' = im_height img /\
  length (im_data img') = length (im_data img).

(** [np.array(img, dtype=np.float32) / 255.0]: a [float32] array of shape
    (height, width). *)
Definition normalized_array (img : image) : ndarray float :=
  mk_ndarray np_float32 [im_height img; im_width img]
    ((fun b => float32_div (float_of_byte b) 255%float) <$> im_data img).

(** The calls [create_block_letter_s] makes into Pillow. *)
Class Pillow : Type := {
  font : Type;
  (** [ImageFont.truetype(path, size)] *)
  ImageFont_truetype : string -> Z -> exn + font;
  (** [ImageFont.load_default()] *)
  ImageFont_load_default : exn + font;
  (** [draw.textbbox(xy, text, font=font)]: (left, top, right, bottom) *)
  ImageDraw_textbbox : Z * Z -> string -> font -> exn + (Z * Z * Z * Z);
  (** [draw.textsize(text, font=font)]: (width, height) *)
  ImageDraw_textsize : string -> font -> exn + (Z * Z);
  (** [draw.text(xy, text, fill=fill, font=font)] *)
  ImageDraw_text : Z * Z -> string -> byte -> font -> exn + painter;
  (** [draw.arc(box, start=start, end=end, fill=fill, width=width)] *)
  ImageDraw_arc : Z * Z * Z * Z -> Z -> Z -> byte -> Z -> exn + painter;
  (** [draw.rectangle(box, fill=fill)] *)
  ImageDraw_rectangle : Z * Z * Z * Z -> byte -> exn + painter
}.

(** ** [create_block_letter_s]  (src/step4_create_block_letter.py) *)

(** Lines 47-59. *)
Definition font_paths : list string :=
  [ "/System/Library/Fonts/Supplemental/Arial Bold.ttf";
    "/System/Library/Fonts/Supplemental/Arial.ttf";
    "/Library/Fonts/Arial Bold.ttf";
    "/System/Library/Fonts/Helvetica.ttc";
    "/usr/share/fonts/truetype/dejavu/DejaVuSans-Bold.ttf";
    "/usr/share/fonts/truetype/liberation/LiberationSans-Bold.ttf";
    "C:\Windows\Fonts\arialbd.ttf";
    "C:\Windows\Fonts\arial.ttf" ].

(** Lines 62-68: the first path that loads; an [OSError] moves on to the
    next path, any other exception propagates. *)
Fixpoint try_font_paths {P : Pillow} (paths : list string) (size : Z)
  : exn + option font :=
  match paths with
  | [] => inr None
  | font_path :: rest =>
      match ImageFont_truetype font_path size with
      | inr f => inr (Some f)
      | inl e => if is_OSError e then try_font_paths rest size else inl e
      end
  end.

(** Lines 71-77: the default font when no path loaded; [except Exception]
    leaves [font = None]. *)
Definition or_default_font {P : Pillow} (found : option font) : option font :=
  match found with
  | Some f => Some f
  | None =>
      match ImageFont_load_default with
      | inr f => Some f
      | inl _ => None
      end
  end.

(** Lines 80-92: the width and height of the text. *)
Definition measure_text {P : Pillow} (fnt : option font) (letter : string)
    (height width : Z) : exn + (Z * Z) :=
  match fnt with
  | Some f =>
      match ImageDraw_textbbox (0, 0)%Z letter f with
      | inr (x0, y0, x1, y1) => inr (x1 - x0, y1 - y0)%Z
      | inl e =>
          if is_AttributeError e then ImageDraw_textsize letter f else inl e
      end
  | None =>
      text_width <-? int_mul width 0.6%float ;;
      text_height <-? int_mul height 0.8%float ;;
      inr (text_width, text_height)
  end.

(** Lines 95-96: [x = (width - text_width) // 2], the same for [y]. *)
Definition center_offsets (height width text_width text_height : Z) : Z * Z :=
  ((width - text_width) / 2, (height - text_height) / 2)%Z.

(** One call on the [ImageDraw] object. *)
Inductive draw_call {P : Pillow} : Type :=
  | DrawText (xy : Z * Z) (text : string) (fill : byte) (fnt : font)
  | DrawArc (box : Z * Z * Z * Z) (start stop : Z) (fill : byte) (width : Z)
  | DrawRectangle (box : Z * Z * Z * Z) (fill : byte).

(** Lines 105-120: the three calls that draw the S shape. *)
Definition fallback_calls {P : Pillow} (height width : Z) : exn + list draw_call :=
  s_width <-? int_mul width 0.5%float ;;
  s_height <-? int_mul height 0.7%float ;;
  let s_x := ((width - s_width) / 2)%Z in
  let s_y := ((height - s_height) / 2)%Z in
  let thickness := Z.max 10 (Z.min width height / 20) in
  inr [ DrawArc (s_x, s_y, s_x + s_width, s_y + s_height / 3)%Z
                90 270 x00 thickness;
        DrawArc (s_x, s_y + 2 * s_height / 3, s_x + s_width, s_y + s_height)%Z
                270 90 x00 thickness;
        DrawRectangle (s_x + s_width / 2 - thickness / 2, s_y + s_height / 4,
                       s_x + s_width / 2 + thickness / 2,
                       s_y + 3 * s_height / 4)%Z
                      x00 ].

(** Lines 99-120: the calls that draw the letter. *)
Definition letter_calls {P : Pillow} (fnt : option font) (letter : string)
    (height width : Z) (xy : Z * Z) : exn + list draw_call :=
  match fnt with
  | Some f => inr [DrawText xy letter x00 f]
  | None => fallback_calls height width
  end.

(** Performing one call on the image. *)
Definition perform {P : Pillow} (c : draw_call) (img : image) : exn + image :=
  p <-? match c with
         | DrawText xy text fill f => ImageDraw_text xy text fill f
         | DrawArc box start stop fill w => ImageDraw_arc box start stop fill w
         | DrawRectangle box fill => ImageDraw_rectangle box fill
         end ;;
  inr (paint p img).

(** Performing calls in order; the first exception stops. *)
Fixpoint perform_all {P : Pillow} (cs : list draw_call) (img : image) : exn + image :=
  match cs with
  | [] => inr img
  | c :: rest => img' <-? perform c img ;; perform_all rest img'
  end.

(** Lines 39-120: the image, drawn. *)
Definition draw_block_letter {P : Pillow} (height width : Z) (letter : string)
    (font_size_ratio : float) : exn + image :=
  img <-? Image_new width height xff ;;
  base_font_size <-? int_mul (Z.min height width) font_size_ratio ;;
  found <-? try_font_paths font_paths base_font_size ;;
  let fnt := or_default_font found in
  extent <-? measure_text fnt letter height width ;;
  let xy := center_offsets height width extent.1 extent.2 in
  calls <-? letter_calls fnt letter height width xy ;;
  perform_all calls img.

(** Lines 39-131: the image is drawn and converted (line 123); the report
    of lines 125-129 prints, among others, [letter_array.min()] and
    [letter_array.max()] (line 127), which raise on an array with no
    element; line 131 returns the array, which then is an object of the
    caller's world.  The other diagnostics (lines 65, 75, 103, 125, 126, 128,
    129) read values, write nothing and raise nothing. *)
Definition create_block_letter_s {P : Pillow} (height width : Z) (letter : string)
    (font_size_ratio : float) : M loc :=
  img <- lift (draw_block_letter height width letter font_size_ratio) ;;
  let letter_array := normalized_array img in
  lift (value_range letter_array) ;;;
  alloc letter_array.

(** What [create_block_letter_s] relies on of Pillow.  A font file that
    does not load raises [OSError] (line 67); a font size that is not
    above zero may instead be refused with a [ValueError], as Pillow 10.1
    and later do before they open the file, and that the loop does not
    catch.  [textbbox] raises at most [AttributeError] and [textsize] then
    answers (lines 86-88), and the drawing calls draw. *)
Record pillow_contract (P : Pillow) : Prop := {
  truetype_raises :
    forall path size e, ImageFont_truetype path size = inl e ->
      is_OSError e = true \/ ((size <= 0)%Z /\ is_ValueError e = true);
  textbbox_raises_AttributeError :
    forall xy text f e, ImageDraw_textbbox xy text f = inl e ->
      is_AttributeError e = true /\ exists wh, ImageDraw_textsize text f = inr wh;
  text_draws :
    forall xy text fill f, exists p, ImageDraw_text xy text fill f = inr p;
  arc_draws :
    forall box start stop fill wd, exists p, ImageDraw_arc box start stop fill wd = inr p;
  rectangle_draws :
    forall box fill, exists p, ImageDraw_rectangle box fill = inr p
}.

(** Where the ink of a text goes: [draw.textbbox((0, 0), text, font=font)]
    is the box (left, top, right, bottom) of the ink of the text drawn at
    the origin, and [draw.text(xy, ...)] draws it moved by xy.  So a pixel
    that [draw.text] changes lies in that box, moved by xy. *)
Definition ink_within_bbox (P : Pillow) : Prop :=
  forall xy text fill f x0 y0 x1 y1 p,
    ImageDraw_textbbox (0, 0)%Z text f = inr (x0, y0, x1, y1) ->
    ImageDraw_text xy text fill f = inr p ->
    forall px py old, p px py old <> old ->
      (xy.1 + x0 <= px < xy.1 + x1 /\ xy.2 + y0 <= py < xy.2 + y1)%Z.

(** The pixel at (x, y) of an image. *)
Definition pixel (img : image) (x y : Z) : option byte :=
  if bool_decide (0 <= x < im_width img /\ 0 <= y < im_height img)%Z
  then im_data img !! Z.to_nat (y * im_width img + x)
  else None.

(** ** The end-to-end scenario of the specification *)



(** ** [create_statistics_meme]  (src/create_meme.py) *)

(** One panel of the figure: its title, its image, its subtitle
    (lines 63-68). *)
Record panel : Type := mk_panel {
  panel_title : string;
  panel_img : ndarray float;
  panel_subtitle : string
}.

(** What lines 59-113 put into the figure. *)
Record figure : Type := mk_figure {
  fig_facecolor : string;
  fig_panels : list panel;
  fig_suptitle : string;
  fig_text : string
}.

(** matplotlib: laying the figure out and encoding it
    ([plt.figure] ... [plt.savefig]) gives the bytes of the PNG file, or
    raises. *)
Class Pyplot : Type := {
  render_png : figure -> Z -> exn + list byte
}.

(** The message of the [ValueError] of line 56. *)
Definition same_shape_msg (shapes : list (list Z)) : string :=
  "All images must have the same shape. Got shapes: " +:+
  repr_list (repr_tuple <$> shapes).

Definition newline : string := String (Ascii.ascii_of_nat 10) EmptyString.

(** Lines 102-106. *)
Definition explanation : string :=
  "The letter 'S' (for Selection) emerges not from the underlying reality, " +:+
  "but from the systematic removal of data points—demonstrating how " +:+
  "selection bias can create false patterns in your analysis.".

(** Lines 54-124.  The report of lines 120-124 writes nothing; its last
    line reads [original_img.shape[0]] and [original_img.shape[1]], an
    [IndexError] on an array of fewer than two dimensions. *)
Definition create_statistics_meme {Plt : Pyplot}
    (original_img stipple_img block_letter_img masked_stipple_img : loc)
    (output_path : string) (dpi : Z) (background_color : string) : M unit :=
  original <- deref original_img ;;
  stipple <- deref stipple_img ;;
  block_letter <- deref block_letter_img ;;
  masked_stipple <- deref masked_stipple_img ;;
  let shapes := shape <$> [original; stipple; block_letter; masked_stipple] in
  if bool_decide (1 < size (list_to_set (C := gset (list Z)) shapes))%nat then
    raise (ValueError (same_shape_msg shapes))
  else
    let panels :=
      [ mk_panel "Reality" original
          ("The true underlying" +:+ newline +:+ "data distribution");
        mk_panel "Your Model" stipple
          ("Unbiased sample from" +:+ newline +:+ "the population");
        mk_panel "Selection Bias" block_letter
          ("Systematic exclusion" +:+ newline +:+ "of certain data points");
        mk_panel "Estimate" masked_stipple
          ("Biased sample after" +:+ newline +:+ "selection mechanism") ] in
    png <- lift (render_png (mk_figure background_color panels "" explanation) dpi) ;;
    write_file output_path png ;;;
    match shape original with
    | _ :: _ :: _ => ret tt
    | _ => raise (OtherException "IndexError" "tuple index out of range")
    end.

(** ** Sample states *)

(** A 2 x 2 sample, and a 2 x 2 mask with one cell equal to the threshold
    0.5, one below and two above. *)
Definition sample_2x2 : ndarray float :=
  mk_ndarray np_float64 [2; 2]%Z [0.3; 0; 0.3; 0.25]%float.

Definition mask_2x2 : ndarray float :=
  mk_ndarray np_float64 [2; 2]%Z [0.1; 0.5; 0.7; 1]%float.

Definition world_2x2 : world :=
  mk_world (<[2%positive := mask_2x2]> (<[1%positive := sample_2x2]> ∅)) ∅.

(** A (1, 2) sample of zeros and a [float32] mask holding [float32(0.7)]
    and [float32(0.1)]. *)
Definition sample_1x2 : ndarray float :=
  mk_ndarray np_float64 [1; 2]%Z [0; 0]%float.

Definition mask_float32 : ndarray float :=
  mk_ndarray np_float32 [1; 2]%Z [float32_of 0.7; float32_of 0.1].

Definition world_float32 : world :=
  mk_world (<[2%positive := mask_float32]> (<[1%positive := sample_1x2]> ∅)) ∅.

(** The same with a second mask, a [float64] array holding the same two
    numbers. *)
Definition mask_1x2 : ndarray float :=
  mk_ndarray np_float64 [1; 2]%Z [float32_of 0.7; float32_of 0.1].

Definition world_3_1x2 : world :=
  mk_world (<[3%positive := mask_1x2]> (objects world_float32)) ∅.

(** A (4, 4) sample and a (4, 5) mask. *)
Definition sample_4x4 : ndarray float :=
  mk_ndarray np_float64 [4; 4]%Z (replicate 16 0.3%float).

Definition mask_4x5 : ndarray float :=
  mk_ndarray np_float32 [4; 5]%Z (replicate 20 1%float).

Definition world_4x4_4x5 : world :=
  mk_world (<[2%positive := mask_4x5]> (<[1%positive := sample_4x4]> ∅)) ∅.

(** Four panels of which the third, the mask, is (4, 5) and the others
    (4, 4). *)
Definition world_panels : world :=
  mk_world (<[4%positive := sample_4x4]> (<[3%positive := mask_4x5]>
           (<[2%positive := sample_4x4]> (<[1%positive := sample_4x4]> ∅)))) ∅.

(** A stand-in for matplotlib that encodes every figure as the eight bytes
    of the PNG signature. *)
Definition signature_pyplot : Pyplot :=
  {| render_png := fun _ _ => inr [x89; x50; x4e; x47; x0d; x0a; x1a; x0a] |}.

(** ** A stand-in for Pillow *)

(** The glyph the stand-in draws for any text: a 5 x 7 letter S. *)
Definition glyph_rows : list (list bool) :=
  [ [false; true; true; true; false];
    [true; false; false; false; true];
    [true; false; false; false; false];
    [false; true; true; true; false];
    [false; false; false; false; true];
    [true; false; false; false; true];
    [false; true; true; true; false] ].

(** Stamps the glyph with its top-left corner at (x0 + 1, y0 + 2). *)
Definition glyph_painter (x0 y0 : Z) (fill : byte) : painter :=
  fun x y old =>
    let dx := (x - (x0 + 1))%Z in
    let dy := (y - (y0 + 2))%Z in
    if bool_decide (0 <= dx /\ 0 <= dy)%Z &&
       default false (glyph_rows !! Z.to_nat dy ≫= fun row => row !! Z.to_nat dx)
    then fill else old.

(** Fills the box, corners included. *)
Definition rectangle_painter (box : Z * Z * Z * Z) (fill : byte) : painter :=
  fun x y old =>
    let '(x0, y0, x1, y1) := box in
    if bool_decide (x0 <= x <= x1 /\ y0 <= y <= y1)%Z then fill else old.

(** Fills the part of the elliptical ring of the given width inscribed in
    the box that lies in its left half when [start < stop] and in its right
    half otherwise. *)
Definition arc_painter (box : Z * Z * Z * Z) (start stop : Z) (fill : byte)
    (width : Z) : painter :=
  fun x y old =>
    let '(x0, y0, x1, y1) := box in
    let a := (x1 - x0)%Z in
    let b := (y1 - y0)%Z in
    let u := (2 * x - (x0 + x1))%Z in
    let v := (2 * y - (y0 + y1))%Z in
    let ai := (a - 2 * width)%Z in
    let bi := (b - 2 * width)%Z in
    let outer := bool_decide (u * u * b * b + v * v * a * a <= a * a * b * b)%Z in
    let inner := bool_decide (0 < ai /\ 0 < bi /\
                              u * u * bi * bi + v * v * ai * ai < ai * ai * bi * bi)%Z in
    let side := if bool_decide (start < stop)%Z then bool_decide (u <= 0)%Z
                else bool_decide (0 <= u)%Z in
    if outer && negb inner && side then fill else old.

(** No font file opens; the built-in font, when there is one, measures
    every character as a 6 x 11 cell. *)
Definition raster_pillow (default_font : bool) : Pillow :=
  {| font := unit;
     ImageFont_truetype := fun _ _ => inl (OSError "cannot open resource");
     ImageFont_load_default :=
       if default_font then inr tt else inl (OSError "cannot open resource");
     ImageDraw_textbbox := fun xy text _ =>
       inr (xy.1, xy.2, xy.1 + 6 * Z.of_nat (String.length text), xy.2 + 11)%Z;
     ImageDraw_textsize := fun text _ =>
       inr (6 * Z.of_nat (String.length text), 11)%Z;
     ImageDraw_text := fun xy _ fill _ => inr (glyph_painter xy.1 xy.2 fill);
     ImageDraw_arc := fun box start stop fill width =>
       inr (arc_painter box start stop fill width);
     ImageDraw_rectangle := fun box fill => inr (rectangle_painter box fill) |}.

Definition empty_world : world := mk_world ∅ ∅.

(** The blank 100 x 100 image. *)
Definition blank_100 : image :=
  mk_image 100 100 (replicate (Z.to_nat (100 * 100)) xff).

(** The mask of the scenario on the stand-in with a built-in font: the
    glyph stamped at (47, 44) on the blank image, converted. *)
Definition raster_mask_100 : ndarray float :=
  normalized_array (paint (glyph_painter 47 44 x00) blank_100).

(** ** Intensities and drawing calls *)

(** Being an intensity: in [0, 1]. *)
Definition unit_interval (v : float) : Prop :=
  (0 <=? v)%float = true /\ (v <=? 1)%float = true.

(** A call whose box has its corners in order, and whose line is at least
    10 pixels wide if it is an arc. *)
Definition well_ordered_call {P : Pillow} (c : draw_call) : Prop :=
  match c with
  | DrawText _ _ _ _ => True
  | DrawArc (x0, y0, x1, y1) _ _ _ width =>
      (x0 <= x1 /\ y0 <= y1 /\ 10 <= width)%Z
  | DrawRectangle (x0, y0, x1, y1) _ => (x0 <= x1 /\ y0 <= y1)%Z
  end.

(** ** The statistics of [create_masked_stipple]  (lines 61-65) *)

(** [a == v]: a new boolean array of the same shape, the comparison made
    at the element type of the array. *)
Definition eq_scalar (a : ndarray float) (v : float) : ndarray bool :=
  mk_ndarray np_bool (shape a)
    ((fun x => PrimFloat.eqb x (as_dtype (dtype a) v)) <$> data a).

(** [x & y] of two boolean arrays of one shape. *)
Definition and_array (x y : ndarray bool) : ndarray bool :=
  mk_ndarray np_bool (shape x) (zip_with andb (data x) (data y)).

(** The five counts the report of lines 67-75 prints. *)
Record masking_report : Type := mk_masking_report {
  total_pixels : Z;
  masked_pixels : nat;
  stipples_before : nat;
  stipples_removed : nat;
  stipples_after : nat
}.

(** Lines 61-65, from the sample, the mask and the threshold of the call. *)
Definition masking_statistics (stipple mask : ndarray float) (threshold : float)
  : masking_report :=
  let masked_stipple := biased_of stipple mask threshold in
  let mask_region := lt_scalar mask threshold in
  mk_masking_report
    (size_of_shape (shape stipple))
    (count_true mask_region)
    (count_true (eq_scalar stipple 0))
    (count_true (and_array (eq_scalar stipple 0) mask_region))
    (count_true (eq_scalar masked_stipple 0)).

(** ** [create_compact_meme]  (src/create_meme.py) *)





(** ** More sample states *)

(** A second 2 x 2 mask. *)
Definition mask2_2x2 : ndarray float :=
  mk_ndarray np_float64 [2; 2]%Z [1; 1; 0.2; 0.6]%float.

Definition world_3_2x2 : world :=
  mk_world (<[3%positive := mask2_2x2]> (objects world_2x2)) ∅.





(** A Pillow whose [truetype] rejects a font size that is not above zero
    with a [ValueError], and is [raster_pillow] otherwise. *)
Definition strict_size_pillow : Pillow :=
  {| font := unit;
     ImageFont_truetype := fun _ size =>
       if bool_decide (size <= 0)%Z
       then inl (ValueError "font size must be greater than 0")
       else inl (OSError "cannot open resource");
     ImageFont_load_default := inr tt;
     ImageDraw_textbbox := ImageDraw_textbbox (Pillow := raster_pillow true);
     ImageDraw_textsize := ImageDraw_textsize (Pillow := raster_pillow true);
     ImageDraw_text := ImageDraw_text (Pillow := raster_pillow true);
     ImageDraw_arc := ImageDraw_arc (Pillow := raster_pillow true);
     ImageDraw_rectangle := ImageDraw_rectangle (Pillow := raster_pillow true) |}.

(** A Pillow with the built-in bitmap font only, when there is one: the
    ink of a character lies in the box (0, 2, 6, 10) from where it is
    drawn, as Pillow's own built-in bitmap font has it for the letter S. *)
Definition bitmap_pillow (default_font : bool) : Pillow :=
  {| font := unit;
     ImageFont_truetype := fun _ _ => inl (OSError "cannot open resource");
     ImageFont_load_default :=
       if default_font then inr tt else inl (OSError "cannot open resource");
     ImageDraw_textbbox := fun xy _ _ => inr (xy.1, xy.2 + 2, xy.1 + 6, xy.2 + 10)%Z;
     ImageDraw_textsize := fun _ _ => inr (6, 8)%Z;
     ImageDraw_text := fun xy _ fill _ => inr (glyph_painter xy.1 xy.2 fill);
     ImageDraw_arc := fun box start stop fill width =>
       inr (arc_painter box start stop fill width);
     ImageDraw_rectangle := fun box fill => inr (rectangle_painter box fill) |}.


(** A Pillow on which the fifth font path, and no earlier one, loads. *)
Definition dejavu_pillow : Pillow :=
  {| font := string;
     ImageFont_truetype := fun path _ =>
       if bool_decide (path = "/usr/share/fonts/truetype/dejavu/DejaVuSans-Bold.ttf")
       then inr path else inl (OSError "cannot open resource");
     ImageFont_load_default := inr "default";
     ImageDraw_textbbox := fun xy text _ =>
       inr (xy.1, xy.2, xy.1 + 6 * Z.of_nat (String.length text), xy.2 + 11)%Z;
     ImageDraw_textsize := fun text _ =>
       inr (6 * Z.of_nat (String.length text), 11)%Z;
     ImageDraw_text := fun xy _ fill _ => inr (glyph_painter xy.1 xy.2 fill);
     ImageDraw_arc := fun box start stop fill width =>
       inr (arc_painter box start stop fill width);
     ImageDraw_rectangle := fun box fill => inr (rectangle_painter box fill) |}.

(** ** Rounding, on integers

    What the lemmas on [float32_of] are stated with. *)

Section RoundingValues.
Local Open Scope Z_scope.

(** What [k] single shifts to the right leave of a mantissa [M]: the
    quotient, the bit shifted out last, and whether a bit shifted out
    before it was set. *)
Definition shifted (M k : Z) : shr_record :=
  {| shr_m := M / 2 ^ k;
     shr_r := Z.testbit M (k - 1);
     shr_s := negb (M mod 2 ^ (k - 1) =? 0) && (1 <=? k) |}.

(** Rounding [M / 2 ^ k] to the nearest integer, ties to even. *)
Definition rne (M k : Z) : Z :=
  let q := M / 2 ^ k in
  let r := M mod 2 ^ k in
  if (2 ^ k <? 2 * r) || ((2 ^ k =? 2 * r) && Z.odd q) then q + 1 else q.

(** The shift that brings a double to the precision of [float32]. *)
Definition shift32 (e : Z) : Z := Z.max 29 (-149 - e).

(** The magnitude of a finite double, in units of 2^(-1074). *)
Definition mag (m : positive) (e : Z) : Z := Z.pos m * 2 ^ (e + 1074).

(** The value of a float in those units; an infinity lies beyond every
    finite double. *)
Definition beyond : Z := 2 ^ 2098.

Definition val (x : spec_float) : Z :=
  match x with
  | S754_zero _ => 0
  | S754_infinity s => cond_Zopp s beyond
  | S754_nan => 0
  | S754_finite s m e => cond_Zopp s (mag m e)
  end.

(** Rounding a double to [float32], on the specification's floats. *)
Definition r32 (x : spec_float) : spec_float := round_to 53 1024 (round_to 24 128 x).

(** The rounded magnitude, and the overflow to infinity from 2^128 on. *)
Definition rounded_mag (m : positive) (e : Z) : Z :=
  rne (Z.pos m) (shift32 e) * 2 ^ (e + shift32 e + 1074).

Definition clamp (w : Z) : Z := if 2 ^ 1202 <=? w then beyond else w.

End RoundingValues.

(** * Properties *)

(** ** Floats *)

Section FloatBounds.
Local Open Scope Z_scope.

(** The number of binary digits of a mantissa. *)
Lemma Zdigits2_log2 (p : positive) : Zdigits2 (Z.pos p) = Z.log2 (Z.pos p) + 1.
Proof.
  destruct p as [p|p|]; cbn; try reflexivity.
  - induction p; cbn in *; lia.
  - induction p; cbn in *; lia.
Qed.

Lemma Zdigits2_nonneg (m : Z) : 0 <= Zdigits2 m.
Proof. destruct m; cbn; lia. Qed.

Lemma Zdigits2_mono (a b : Z) : 0 <= a <= b -> Zdigits2 a <= Zdigits2 b.
Proof.
  intros [Ha Hab]. destruct a as [|a|a]; [apply Zdigits2_nonneg| |lia].
  destruct b as [|b|b]; [lia| |lia].
  rewrite !Zdigits2_log2. apply Z.add_le_mono_r, Z.log2_le_mono. exact Hab.
Qed.

Lemma Zdigits2_succ (a : Z) : 0 <= a -> Zdigits2 (a + 1) <= Zdigits2 a + 1.
Proof.
  intros Ha. destruct a as [|a|a]; [vm_compute; discriminate| |lia].
  change (Z.pos a + 1) with (Z.succ (Z.pos a)).
  assert (H : exists q, Z.succ (Z.pos a) = Z.pos q)
    by (exists (Pos.succ a); symmetry; apply Pos2Z.inj_succ).
  destruct H as [q Hq]. rewrite Hq, !Zdigits2_log2, <- Hq.
  pose proof (Z.log2_succ_le (Z.pos a)). lia.
Qed.

Lemma Zdigits2_mul (a b : positive) :
  Zdigits2 (Z.pos (a * b)) <= Zdigits2 (Z.pos a) + Zdigits2 (Z.pos b).
Proof.
  rewrite !Zdigits2_log2. rewrite Pos2Z.inj_mul.
  pose proof (Z.log2_mul_above (Z.pos a) (Z.pos b)). lia.
Qed.

Lemma Zdigits2_shift (p d : positive) :
  Zdigits2 (Z.pos (Pos.iter xO p d)) = Zdigits2 (Z.pos p) + Z.pos d.
Proof.
  induction d using Pos.peano_ind.
  - cbn. lia.
  - rewrite Pos.iter_succ. cbn in *. lia.
Qed.


(** Shifting a mantissa right keeps it between zero and what it was. *)
Lemma iter_pos_invariant {A} (f : A -> A) (I : A -> Prop) :
  (forall x, I x -> I (f x)) -> forall n x, I x -> I (SpecFloat.iter_pos f n x).
Proof.
  intros Hf. induction n as [n IH|n IH|]; intros x Hx; cbn; auto.
Qed.

Lemma shr_1_range (M : Z) (mrs : shr_record) :
  0 <= shr_m mrs <= M -> 0 <= shr_m (shr_1 mrs) <= M.
Proof.
  destruct mrs as [m r s]. cbn. destruct m as [|[p|p|]|[p|p|]]; cbn; lia.
Qed.

Lemma shr_record_of_loc_m (m : Z) (l : location) : shr_m (shr_record_of_loc m l) = m.
Proof. destruct l as [|[]]; reflexivity. Qed.

(** One rounding shift: the mantissa does not grow, and the exponent is
    the larger of the given one and the format's. *)
Lemma shr_fexp_range (prec emax m e : Z) (l : location) :
  0 <= m ->
  0 <= shr_m (fst (shr_fexp prec emax m e l)) <= m /\
  snd (shr_fexp prec emax m e l) = Z.max e (SpecFloat.fexp prec emax (Zdigits2 m + e)).
Proof.
  intros Hm. unfold shr_fexp, shr.
  destruct (SpecFloat.fexp prec emax (Zdigits2 m + e) - e) as [|n|n] eqn:Hn; cbn [fst snd].
  - rewrite shr_record_of_loc_m. lia.
  - split; [|lia].
    apply (iter_pos_invariant shr_1 (fun mrs => 0 <= shr_m mrs <= m)%Z).
    + intros x. apply shr_1_range.
    + rewrite shr_record_of_loc_m. lia.
  - rewrite shr_record_of_loc_m. lia.
Qed.

Lemma round_nearest_even_range (m : Z) (l : location) :
  m <= round_nearest_even m l <= m + 1.
Proof. destruct l as [|[]]; cbn; try lia. destruct (Z.even m); lia. Qed.

(** Rounding a non-negative mantissa of at most [D] digits at an exponent
    of at most [X] gives a zero or a finite float, with the mantissa and
    the exponent bounded, as long as the bound on the exponent is within
    the format. *)
Lemma binary_round_aux_bounded (prec emax : Z) (s : bool) (mx ex : Z) (lx : location)
    (D X : Z) :
  0 <= mx -> Zdigits2 mx <= D -> ex <= X ->
  let E := Z.max X (Z.max (D + X - prec) (SpecFloat.emin prec emax)) in
  let E2 := Z.max E (Z.max (D + 1 + E - prec) (SpecFloat.emin prec emax)) in
  E2 <= emax - prec ->
  binary_round_aux prec emax s mx ex lx = S754_zero s \/
  exists m e, binary_round_aux prec emax s mx ex lx = S754_finite s m e /\
              Z.pos m <= mx + 1 /\ e <= E2.
Proof.
  intros Hmx HD HX E E2 HE2. unfold binary_round_aux.
  pose proof (shr_fexp_range prec emax mx ex lx Hmx) as [Hm1 He1].
  destruct (shr_fexp prec emax mx ex lx) as [mrs1 e1]. cbn [fst snd] in *.
  pose proof (round_nearest_even_range (shr_m mrs1) (loc_of_shr_record mrs1)) as Hr.
  set (m1 := round_nearest_even (shr_m mrs1) (loc_of_shr_record mrs1)) in *.
  assert (Hm1' : 0 <= m1) by lia.
  pose proof (shr_fexp_range prec emax m1 e1 loc_Exact Hm1') as [Hm2 He2].
  destruct (shr_fexp prec emax m1 e1 loc_Exact) as [mrs2 e2]. cbn [fst snd] in *.
  assert (Hd1 : Zdigits2 m1 <= D + 1).
  { transitivity (Zdigits2 (mx + 1)).
    - apply Zdigits2_mono. lia.
    - pose proof (Zdigits2_succ mx Hmx). lia. }
  assert (He1' : e1 <= E).
  { subst e1. unfold E, SpecFloat.fexp. lia. }
  assert (He2' : e2 <= E2).
  { subst e2. unfold E2, SpecFloat.fexp. lia. }
  destruct (shr_m mrs2) as [|m|m] eqn:Hm; [left; reflexivity| |lia].
  right. exists m, e2.
  rewrite (proj2 (Z.leb_le e2 (emax - prec))) by lia.
  split; [reflexivity|]. split; lia.
Qed.

(** An integer below 2^53 converts to a zero or to a finite double of at
    most 54 digits at an exponent of at most 1. *)
Lemma binary_normalize_small (n : Z) :
  0 <= n < 2 ^ 53 ->
  binary_normalize prec emax n 0 false = S754_zero false \/
  exists m e, binary_normalize prec emax n 0 false = S754_finite false m e /\
              Zdigits2 (Z.pos m) <= 54 /\ e <= 1.
Proof.
  intros [Hn0 Hn]. destruct n as [|p|p]; [left; reflexivity| |lia].
  assert (Hd : Zdigits2 (Z.pos p) <= 53).
  { rewrite Zdigits2_log2.
    assert (Z.log2 (Z.pos p) < 53) by (apply Z.log2_lt_pow2; lia). lia. }
  unfold binary_normalize, binary_round.
  destruct (shl_align p 0 (SpecFloat.fexp prec emax (Z.pos (digits2_pos p) + 0)))
    as [mz ez] eqn:Hsh.
  assert (Hmz : Zdigits2 (Z.pos mz) <= 53 /\ ez <= 0).
  { unfold shl_align in Hsh.
    destruct (SpecFloat.fexp prec emax (Z.pos (digits2_pos p) + 0) - 0)
      as [|k|k] eqn:Hk; inversion Hsh; subst; clear Hsh.
    - split; [exact Hd|lia].
    - split; [exact Hd|lia].
    - rewrite Zdigits2_shift. unfold SpecFloat.fexp, SpecFloat.emin, prec, emax in *.
      cbn [Zdigits2] in *. lia. }
  destruct Hmz as [Hmz Hez].
  destruct (binary_round_aux_bounded prec emax false (Z.pos mz) ez loc_Exact 53 0)
    as [Hz|(m & e & Hr & Hm & He)]; try lia.
  { unfold SpecFloat.emin, prec, emax. lia. }
  - left. exact Hz.
  - right. exists m, e. split; [exact Hr|]. split.
    + transitivity (Zdigits2 (Z.pos mz + 1)).
      * apply Zdigits2_mono. lia.
      * pose proof (Zdigits2_succ (Z.pos mz)). lia.
    + unfold SpecFloat.emin, prec, emax in He. lia.
Qed.

(** A double in (0, 1] is finite and positive, with an exponent of at most
    -52. *)
Lemma unit_ratio_finite (c : float) :
  (0 <? c)%float = true -> (c <=? 1)%float = true ->
  exists m e, Prim2SF c = S754_finite false m e /\
              Zdigits2 (Z.pos m) <= 53 /\ e <= -52.
Proof.
  intros Hpos Hle.
  rewrite ltb_spec in Hpos. rewrite leb_spec in Hle.
  pose proof (Prim2SF_valid c) as Hv.
  assert (H0 : Prim2SF 0 = S754_zero false) by (vm_compute; reflexivity).
  assert (H1 : Prim2SF 1 = S754_finite false 4503599627370496 (-52))
    by (vm_compute; reflexivity).
  rewrite H0 in Hpos. rewrite H1 in Hle. clear H0 H1.
  destruct (Prim2SF c) as [[]|[]| |[] m e]; try discriminate.
  exists m, e. split; [reflexivity|].
  cbn in Hv. unfold bounded, canonical_mantissa in Hv.
  apply andb_prop in Hv as [Hc _]. apply Z.eqb_eq in Hc.
  unfold SpecFloat.fexp, SpecFloat.emin, prec, emax in Hc.
  split; [cbn [Zdigits2]; lia|].
  unfold SFleb, SFcompare in Hle.
  destruct (Z.compare_spec e (-52)); [lia|lia|discriminate].
Qed.

(** [int(n * c)] raises nothing when n is a non-negative integer below
    2^53 and c is a ratio in (0, 1]. *)
Lemma int_mul_defined (n : Z) (c : float) :
  0 <= n < 2 ^ 53 -> (0 <? c)%float = true -> (c <=? 1)%float = true ->
  exists z, int_mul n c = inr z.
Proof.
  intros Hn Hpos Hle. unfold int_mul.
  destruct (unit_ratio_finite c Hpos Hle) as (mc & ec & -> & Hdc & Hec).
  destruct (binary_normalize_small n Hn) as [->|(m & e & -> & Hd & He)].
  - cbn. eauto.
  - cbn [SFmul xorb].
    destruct (binary_round_aux_bounded prec emax false (Z.pos (m * mc)) (e + ec)
                loc_Exact 107 (-51)) as [->|(m' & e' & -> & _ & _)]; eauto.
    + lia.
    + pose proof (Zdigits2_mul m mc). lia.
    + lia.
    + unfold SpecFloat.emin, prec, emax. lia.
Qed.
End FloatBounds.

(** ** Rounding to [float32] *)

Section Float32.
Local Open Scope Z_scope.

(** The digits of a positive number bound it. *)
Lemma Zdigits2_bounds (p : positive) :
  2 ^ (Zdigits2 (Z.pos p) - 1) <= Z.pos p < 2 ^ Zdigits2 (Z.pos p).
Proof.
  rewrite Zdigits2_log2.
  pose proof (Z.log2_spec (Z.pos p) ltac:(lia)) as H.
  replace (Z.log2 (Z.pos p) + 1 - 1) with (Z.log2 (Z.pos p)) by lia.
  replace (Z.log2 (Z.pos p) + 1) with (Z.succ (Z.log2 (Z.pos p))) by lia.
  exact H.
Qed.

Lemma shr_1_shifted (M k : Z) :
  0 <= M -> 0 <= k -> shr_1 (shifted M k) = shifted M (k + 1).
Proof.
  intros HM Hk. unfold shifted.
  assert (Hq : M / 2 ^ (k + 1) = M / 2 ^ k / 2).
  { rewrite Z.pow_add_r, Z.pow_1_r by lia. rewrite Z.div_div by lia. reflexivity. }
  assert (Hr : Z.testbit M (k + 1 - 1) = Z.odd (M / 2 ^ k)).
  { replace (k + 1 - 1) with k by lia. rewrite Z.testbit_odd, Z.shiftr_div_pow2 by lia.
    reflexivity. }
  assert (Hs : negb (M mod 2 ^ (k + 1 - 1) =? 0) && (1 <=? k + 1) =
               Z.testbit M (k - 1) || (negb (M mod 2 ^ (k - 1) =? 0) && (1 <=? k))).
  { replace (k + 1 - 1) with k by lia.
    rewrite (proj2 (Z.leb_le 1 (k + 1))) by lia. rewrite andb_true_r.
    destruct (Z.eq_dec k 0) as [->|Hk0].
    - rewrite Z.pow_0_r, Z.mod_1_r, Z.testbit_neg_r by lia.
      rewrite andb_false_r. reflexivity.
    - rewrite (proj2 (Z.leb_le 1 k)) by lia. rewrite andb_true_r.
      assert (Hsplit : M mod 2 ^ k =
                       2 ^ (k - 1) * Z.b2z (Z.testbit M (k - 1)) + M mod 2 ^ (k - 1)).
      { rewrite Z.testbit_spec' by lia.
        replace (2 ^ k) with (2 ^ (k - 1) * 2 ^ 1)
          by (rewrite <- Z.pow_add_r by lia; f_equal; lia).
        rewrite Z.pow_1_r.
        rewrite Z.rem_mul_r by lia. lia. }
      pose proof (Z.mod_pos_bound M (2 ^ (k - 1)) ltac:(lia)).
      assert (0 < 2 ^ (k - 1)) by lia.
      destruct (Z.testbit M (k - 1)); cbn [Z.b2z orb] in *.
      + destruct (Z.eqb_spec (M mod 2 ^ k) 0); [lia|reflexivity].
      + rewrite Hsplit. f_equal. f_equal. lia. }
  rewrite Hq, Hr, Hs.
  pose proof (Z.div_pos M (2 ^ k) HM ltac:(lia)) as Hpos.
  set (q := M / 2 ^ k) in *.
  rewrite <- Z.div2_div. cbn [shr_1].
  destruct q as [|[p|p|]|p]; cbn; try reflexivity; lia.
Qed.

Lemma iter_pos_shr_1 (M : Z) (n : positive) (k : Z) :
  0 <= M -> 0 <= k ->
  SpecFloat.iter_pos shr_1 n (shifted M k) = shifted M (k + Z.pos n).
Proof.
  intros HM. revert k. induction n as [n IH|n IH|]; intros k Hk; cbn [SpecFloat.iter_pos].
  - rewrite shr_1_shifted, !IH by lia. f_equal. lia.
  - rewrite !IH by lia. f_equal. lia.
  - apply shr_1_shifted; assumption.
Qed.

Lemma round_shifted (M k : Z) :
  0 <= M -> 0 < k ->
  round_nearest_even (shr_m (shifted M k)) (loc_of_shr_record (shifted M k)) = rne M k.
Proof.
  intros HM Hk. unfold shifted, rne. cbn [shr_m loc_of_shr_record].
  rewrite (proj2 (Z.leb_le 1 k)) by lia. rewrite andb_true_r.
  assert (Hsplit : M mod 2 ^ k =
                   2 ^ (k - 1) * Z.b2z (Z.testbit M (k - 1)) + M mod 2 ^ (k - 1)).
  { rewrite Z.testbit_spec' by lia.
    replace (2 ^ k) with (2 ^ (k - 1) * 2 ^ 1)
      by (rewrite <- Z.pow_add_r by lia; f_equal; lia).
    rewrite Z.pow_1_r. rewrite Z.rem_mul_r by lia. lia. }
  assert (Hpow : 2 ^ k = 2 * 2 ^ (k - 1)).
  { rewrite <- Z.pow_succ_r by lia. f_equal. lia. }
  pose proof (Z.mod_pos_bound M (2 ^ (k - 1)) ltac:(lia)).
  rewrite Hsplit. set (q := M / 2 ^ k). rewrite Hpow.
  destruct (Z.testbit M (k - 1)); cbn [Z.b2z];
    destruct (Z.eqb_spec (M mod 2 ^ (k - 1)) 0) as [H0|H0]; cbn [negb round_nearest_even].
  - rewrite H0. rewrite (proj2 (Z.ltb_ge _ _)) by lia.
    rewrite (proj2 (Z.eqb_eq _ _)) by lia. cbn [orb andb].
    rewrite <- Z.negb_odd. destruct (Z.odd _); reflexivity.
  - rewrite (proj2 (Z.ltb_lt _ _)) by lia. reflexivity.
  - rewrite H0. rewrite (proj2 (Z.ltb_ge _ _)) by lia.
    rewrite (proj2 (Z.eqb_neq _ _)) by lia. reflexivity.
  - rewrite (proj2 (Z.ltb_ge _ _)) by lia.
    rewrite (proj2 (Z.eqb_neq _ _)) by lia. reflexivity.
Qed.

Lemma rne_bounds (M k : Z) : M / 2 ^ k <= rne M k <= M / 2 ^ k + 1.
Proof. unfold rne. destruct (_ || _); lia. Qed.

Lemma rne_mono (M M' k : Z) : 0 <= k -> M <= M' -> rne M k <= rne M' k.
Proof.
  intros Hk HM.
  assert (Hp : 0 < 2 ^ k) by lia.
  pose proof (Z.div_mod M (2 ^ k) ltac:(lia)) as E.
  pose proof (Z.div_mod M' (2 ^ k) ltac:(lia)) as E'.
  pose proof (Z.mod_pos_bound M (2 ^ k) Hp) as B.
  pose proof (Z.mod_pos_bound M' (2 ^ k) Hp) as B'.
  pose proof (Z.div_le_mono M M' (2 ^ k) Hp HM) as Hq.
  unfold rne.
  set (q := M / 2 ^ k) in *. set (q' := M' / 2 ^ k) in *.
  set (r := M mod 2 ^ k) in *. set (r' := M' mod 2 ^ k) in *.
  set (P := 2 ^ k) in *.
  destruct (Z.eq_dec q q') as [Heq|Hne].
  - rewrite <- Heq in *.
    destruct (Z.ltb_spec P (2 * r)), (Z.ltb_spec P (2 * r')),
             (Z.eqb_spec P (2 * r)), (Z.eqb_spec P (2 * r')), (Z.odd q);
      cbn [orb andb]; nia.
  - destruct (_ || _), (_ || _); lia.
Qed.

Lemma rne_exact (a k : Z) : 0 <= k -> rne (a * 2 ^ k) k = a.
Proof.
  intros Hk. unfold rne.
  rewrite Z.div_mul, Z.mod_mul by lia.
  rewrite (proj2 (Z.ltb_ge _ _)) by lia.
  rewrite (proj2 (Z.eqb_neq _ _)) by lia. reflexivity.
Qed.


Lemma shifted_0 (M : Z) : shifted M 0 = {| shr_m := M; shr_r := false; shr_s := false |}.
Proof.
  unfold shifted. rewrite Z.pow_0_r, Z.div_1_r, Z.testbit_neg_r by lia.
  rewrite andb_false_r. reflexivity.
Qed.

(** A rounding shift by [n] places. *)
Lemma shr_fexp_shift (prec emax M e : Z) (n : positive) :
  0 <= M -> SpecFloat.fexp prec emax (Zdigits2 M + e) - e = Z.pos n ->
  shr_fexp prec emax M e loc_Exact = (shifted M (Z.pos n), e + Z.pos n).
Proof.
  intros HM Hn. unfold shr_fexp, shr. rewrite Hn. cbn [shr_record_of_loc].
  rewrite <- shifted_0, iter_pos_shr_1 by lia. reflexivity.
Qed.

(** No rounding shift for a mantissa that fits. *)
Lemma shr_fexp_fits (prec emax M e : Z) :
  SpecFloat.fexp prec emax (Zdigits2 M + e) <= e ->
  shr_fexp prec emax M e loc_Exact =
    ({| shr_m := M; shr_r := false; shr_s := false |}, e).
Proof.
  intros Hn. unfold shr_fexp, shr.
  destruct (SpecFloat.fexp prec emax (Zdigits2 M + e) - e) eqn:H; try reflexivity. lia.
Qed.

Lemma pos_iter_xO (p d : positive) : Z.pos (Pos.iter xO p d) = Z.pos p * 2 ^ Z.pos d.
Proof.
  induction d using Pos.peano_ind.
  - cbn. lia.
  - rewrite Pos.iter_succ, Pos2Z.inj_succ, Z.pow_succ_r by lia.
    rewrite Pos2Z.inj_xO, IHd. lia.
Qed.

(** Rounding a mantissa whose digits fit the precision changes nothing but
    the representation: the result is the canonical float of the same
    value. *)
Lemma binary_round_fits (prec emax : Z) (s : bool) (a : positive) (e : Z) :
  0 < prec ->
  Zdigits2 (Z.pos a) <= prec ->
  SpecFloat.emin prec emax <= Zdigits2 (Z.pos a) + e - prec ->
  Zdigits2 (Z.pos a) + e <= emax ->
  exists m' e',
    binary_round prec emax s a e = S754_finite s m' e' /\
    bounded prec emax m' e' = true /\
    e' <= e /\ Z.pos m' = Z.pos a * 2 ^ (e - e').
Proof.
  intros Hprec Hd Hmin Hmax. unfold binary_round, shl_align.
  change (Z.pos (digits2_pos a)) with (Zdigits2 (Z.pos a)).
  set (d := Zdigits2 (Z.pos a)) in *.
  assert (Hf : SpecFloat.fexp prec emax (d + e) = d + e - prec)
    by (unfold SpecFloat.fexp; lia).
  rewrite Hf.
  assert (Hfits : forall mz ez, Zdigits2 (Z.pos mz) = prec -> ez = d + e - prec ->
            binary_round_aux prec emax s (Z.pos mz) ez loc_Exact = S754_finite s mz ez /\
            bounded prec emax mz ez = true).
  { intros mz ez Hdz Hez.
    assert (Hfz : SpecFloat.fexp prec emax (Zdigits2 (Z.pos mz) + ez) = ez)
      by (unfold SpecFloat.fexp; lia).
    unfold binary_round_aux.
    rewrite shr_fexp_fits by lia. cbn [shr_m loc_of_shr_record round_nearest_even].
    rewrite shr_fexp_fits by lia. cbn [shr_m].
    rewrite (proj2 (Z.leb_le ez (emax - prec))) by lia.
    split; [reflexivity|].
    unfold bounded, canonical_mantissa.
    change (Z.pos (digits2_pos mz)) with (Zdigits2 (Z.pos mz)).
    rewrite Hfz, Z.eqb_refl. apply Z.leb_le. lia. }
  destruct (d + e - prec - e) as [|k|k] eqn:Hk.
  - exists a, e. destruct (Hfits a e) as [-> ->]; [fold d; lia|lia|].
    repeat split; [lia|]. rewrite Z.sub_diag. lia.
  - lia.
  - exists (Pos.iter xO a k), (d + e - prec).
    destruct (Hfits (Pos.iter xO a k) (d + e - prec)) as [-> ->];
      [rewrite Zdigits2_shift; fold d; lia|reflexivity|].
    repeat split; [lia|]. rewrite pos_iter_xO. f_equal. f_equal. lia.
Qed.

Lemma bounded64 (m : positive) (e : Z) :
  bounded 53 1024 m e = true ->
  Zdigits2 (Z.pos m) <= 53 /\ -1074 <= e <= 971 /\
  (Zdigits2 (Z.pos m) = 53 \/ e = -1074).
Proof.
  unfold bounded, canonical_mantissa, SpecFloat.fexp, SpecFloat.emin.
  change (Z.pos (digits2_pos m)) with (Zdigits2 (Z.pos m)).
  intros H. apply andb_prop in H as [H1 H2].
  apply Z.eqb_eq in H1. apply Z.leb_le in H2. lia.
Qed.

(** The mantissa of a double, shifted and rounded, has at most 24 bits or
    is 2^24; of a double of at least 2^(-126) it has at least 24 bits. *)
Lemma rne_shift32_range (m : positive) (e : Z) :
  bounded 53 1024 m e = true ->
  0 <= rne (Z.pos m) (shift32 e) <= 2 ^ 24 /\
  (-149 < e + shift32 e -> 2 ^ 23 <= rne (Z.pos m) (shift32 e)).
Proof.
  intros Hb. destruct (bounded64 m e Hb) as (Hd & He & Hc).
  pose proof (Zdigits2_bounds m) as Hm.
  pose proof (rne_bounds (Z.pos m) (shift32 e)) as Hr.
  assert (HN : 29 <= shift32 e) by (unfold shift32; lia).
  assert (Hm53 : Z.pos m < 2 ^ 53).
  { eapply Z.lt_le_trans; [apply Hm|]. apply Z.pow_le_mono_r; lia. }
  assert (Hq : 0 <= Z.pos m / 2 ^ shift32 e < 2 ^ 24).
  { split; [apply Z.div_pos; lia|].
    apply Z.div_lt_upper_bound; [lia|].
    eapply Z.lt_le_trans; [exact Hm53|].
    replace 53 with (29 + 24) by lia. rewrite Z.pow_add_r by lia.
    apply Z.mul_le_mono_nonneg_r; [lia|]. apply Z.pow_le_mono_r; lia. }
  split; [lia|].
  intros HE. assert (HN29 : shift32 e = 29) by (unfold shift32 in *; lia).
  assert (Hd53 : Zdigits2 (Z.pos m) = 53) by (unfold shift32 in *; lia).
  rewrite Hd53 in Hm. rewrite HN29 in *.
  assert (2 ^ 23 <= Z.pos m / 2 ^ 29); [|lia].
  apply Z.div_le_lower_bound; [lia|].
  rewrite <- Z.pow_add_r by lia. exact (proj1 Hm).
Qed.

(** Rounding a double to [float32]: zero, a [float32] mantissa at its
    exponent, or an overflow. *)
Lemma round32_of_double (s : bool) (m : positive) (e : Z) :
  bounded 53 1024 m e = true ->
  let a := rne (Z.pos m) (shift32 e) in
  let E := e + shift32 e in
  round_to 24 128 (S754_finite s m e) =
    match a with
    | Z.pos p =>
        if a =? 2 ^ 24
        then if E + 1 <=? 104 then S754_finite s (2 ^ 23) (E + 1) else S754_infinity s
        else if E <=? 104 then S754_finite s p E else S754_infinity s
    | _ => S754_zero s
    end.
Proof.
  intros Hb a E. destruct (bounded64 m e Hb) as (Hd & He & Hc).
  destruct (rne_shift32_range m e Hb) as [Ha _]. fold a in Ha.
  assert (HN : 29 <= shift32 e) by (unfold shift32; lia).
  assert (Hsh : SpecFloat.fexp 24 128 (Zdigits2 (Z.pos m) + e) - e = shift32 e)
    by (unfold SpecFloat.fexp, SpecFloat.emin, shift32; lia).
  cbn [round_to]. unfold binary_round, shl_align.
  change (Z.pos (digits2_pos m)) with (Zdigits2 (Z.pos m)).
  rewrite Hsh.
  destruct (shift32 e) as [|n|n] eqn:Hn; [lia| |lia].
  unfold binary_round_aux.
  rewrite (shr_fexp_shift 24 128 (Z.pos m) e n) by (rewrite ?Hsh; lia).
  rewrite round_shifted by lia.
  change (rne (Z.pos m) (Z.pos n)) with a. change (e + Z.pos n) with E.
  assert (HE : -149 <= E) by (unfold E, shift32 in *; lia).
  destruct a as [|p|p] eqn:Hp; [| |lia].
  - rewrite shr_fexp_fits
      by (cbn [Zdigits2]; unfold SpecFloat.fexp, SpecFloat.emin; lia).
    reflexivity.
  - destruct (Z.eqb_spec (Z.pos p) (2 ^ 24)) as [H24|H24].
    + assert (Hp24 : p = 16777216%positive) by lia. subst p.
      rewrite (shr_fexp_shift 24 128 _ E 1)
        by (try change (Zdigits2 16777216) with 25;
            unfold SpecFloat.fexp, SpecFloat.emin; lia).
      reflexivity.
    + assert (Hdp : Zdigits2 (Z.pos p) <= 24).
      { rewrite Zdigits2_log2.
        assert (Z.log2 (Z.pos p) < 24) by (apply Z.log2_lt_pow2; lia). lia. }
      rewrite shr_fexp_fits by (unfold SpecFloat.fexp, SpecFloat.emin; lia).
      reflexivity.
Qed.

(** The order of doubles, through their values. *)

Lemma mag_range (m : positive) (e : Z) :
  bounded 53 1024 m e = true -> 0 < mag m e < beyond.
Proof.
  intros Hb. destruct (bounded64 m e Hb) as (Hd & He & _).
  pose proof (Zdigits2_bounds m) as Hm. unfold mag, beyond.
  assert (Hm53 : Z.pos m < 2 ^ 53).
  { eapply Z.lt_le_trans; [apply Hm|]. apply Z.pow_le_mono_r; lia. }
  assert (Hp : 0 < 2 ^ (e + 1074)) by (apply Z.pow_pos_nonneg; lia).
  split; [lia|].
  apply Z.lt_le_trans with (2 ^ 53 * 2 ^ (e + 1074)).
  - apply Z.mul_lt_mono_pos_r; assumption.
  - rewrite <- Z.pow_add_r by lia. apply Z.pow_le_mono_r; lia.
Qed.

Lemma mag_lt_exponent (m1 m2 : positive) (e1 e2 : Z) :
  bounded 53 1024 m1 e1 = true -> bounded 53 1024 m2 e2 = true ->
  e1 < e2 -> mag m1 e1 < mag m2 e2.
Proof.
  intros Hb1 Hb2 He.
  destruct (bounded64 m1 e1 Hb1) as (Hd1 & He1 & _).
  destruct (bounded64 m2 e2 Hb2) as (Hd2 & He2 & Hc2).
  pose proof (Zdigits2_bounds m1) as Hm1. pose proof (Zdigits2_bounds m2) as Hm2.
  assert (Hd53 : Zdigits2 (Z.pos m2) = 53) by lia. rewrite Hd53 in Hm2.
  assert (Hm53 : Z.pos m1 < 2 ^ 53).
  { eapply Z.lt_le_trans; [apply Hm1|]. apply Z.pow_le_mono_r; lia. }
  unfold mag.
  assert (Hp1 : 0 < 2 ^ (e1 + 1074)) by (apply Z.pow_pos_nonneg; lia).
  assert (Hp2 : 0 < 2 ^ (e2 + 1074)) by (apply Z.pow_pos_nonneg; lia).
  apply Z.lt_le_trans with (2 ^ 53 * 2 ^ (e1 + 1074)).
  - apply Z.mul_lt_mono_pos_r; assumption.
  - apply Z.le_trans with (2 ^ 52 * 2 ^ (e2 + 1074)).
    + rewrite <- !Z.pow_add_r by lia. apply Z.pow_le_mono_r; lia.
    + apply Z.mul_le_mono_nonneg_r; lia.
Qed.

Lemma mag_compare_mantissa (m1 m2 : positive) (e : Z) :
  -1074 <= e -> (mag m1 e ?= mag m2 e) = Pos.compare m1 m2.
Proof.
  intros He. unfold mag.
  assert (Hp : 0 < 2 ^ (e + 1074)) by (apply Z.pow_pos_nonneg; lia).
  destruct (Pos.compare_spec m1 m2) as [->|H|H].
  - apply Z.compare_refl.
  - apply Z.compare_lt_iff. apply Z.mul_lt_mono_pos_r; lia.
  - apply Z.compare_gt_iff. apply Z.mul_lt_mono_pos_r; lia.
Qed.

Lemma mag_compare (m1 m2 : positive) (e1 e2 : Z) :
  bounded 53 1024 m1 e1 = true -> bounded 53 1024 m2 e2 = true ->
  (mag m1 e1 ?= mag m2 e2) =
    match e1 ?= e2 with
    | Lt => Lt
    | Gt => Gt
    | Eq => Pos.compare_cont Eq m1 m2
    end.
Proof.
  intros Hb1 Hb2. destruct (Z.compare_spec e1 e2) as [->|He|He].
  - apply mag_compare_mantissa. destruct (bounded64 m2 e2 Hb2) as (_ & ? & _). lia.
  - apply Z.compare_lt_iff. apply mag_lt_exponent; assumption.
  - apply Z.compare_gt_iff. apply mag_lt_exponent; assumption.
Qed.

(** On doubles the comparison of the specification is the comparison of
    the values. *)
Lemma SFcompare_val (x y : spec_float) :
  valid_binary x = true -> valid_binary y = true ->
  x <> S754_nan -> y <> S754_nan ->
  SFcompare x y = Some (val x ?= val y).
Proof.
  intros Hx Hy Hnx Hny.
  assert (HI : 0 < beyond) by (apply Z.pow_pos_nonneg; lia).
  destruct x as [sx|sx| |sx mx ex], y as [sy|sy| |sy my ey]; try congruence;
    change (valid_binary ?x) with (SpecFloat.valid_binary 53 1024 x) in Hx, Hy;
    cbn [SpecFloat.valid_binary] in Hx, Hy;
    try pose proof (mag_range mx ex Hx); try pose proof (mag_range my ey Hy);
    cbn [SFcompare val]; f_equal; symmetry;
    try (destruct sx); try (destruct sy); cbn [cond_Zopp];
    try reflexivity;
    try (apply Z.compare_gt_iff; lia); try (apply Z.compare_lt_iff; lia);
    try (apply Z.compare_eq_iff; lia).
  - rewrite Z.compare_opp, (mag_compare my mx ey ex) by assumption.
    rewrite (Z.compare_antisym ey ex).
    destruct (ey ?= ex); cbn [CompOpp]; try reflexivity.
    change (Pos.compare_cont Eq my mx) with (Pos.compare my mx).
    change (Pos.compare_cont Eq mx my) with (Pos.compare mx my).
    apply Pos.compare_antisym.
  - apply mag_compare; assumption.
Qed.

Lemma val_finite_fits (s : bool) (a : positive) (e : Z) :
  Zdigits2 (Z.pos a) <= 24 -> -149 <= e <= 104 ->
  valid_binary (round_to 53 1024 (S754_finite s a e)) = true /\
  round_to 53 1024 (S754_finite s a e) <> S754_nan /\
  val (round_to 53 1024 (S754_finite s a e)) = cond_Zopp s (Z.pos a * 2 ^ (e + 1074)).
Proof.
  intros Hd He. pose proof (Zdigits2_bounds a) as Ha.
  assert (0 < Zdigits2 (Z.pos a)) by (cbn; lia).
  destruct (binary_round_fits 53 1024 s a e) as (m' & e' & Hr & Hb & He' & Hm');
    [lia|lia|unfold SpecFloat.emin; lia|lia|].
  cbn [round_to]. rewrite Hr.
  split; [exact Hb|]. split; [discriminate|].
  destruct (bounded64 m' e' Hb) as (_ & ? & _).
  cbn [val]. f_equal. unfold mag. rewrite Hm', <- Z.mul_assoc, <- Z.pow_add_r by lia.
  f_equal. f_equal. lia.
Qed.

Lemma r32_finite (s : bool) (m : positive) (e : Z) :
  bounded 53 1024 m e = true ->
  valid_binary (r32 (S754_finite s m e)) = true /\
  r32 (S754_finite s m e) <> S754_nan /\
  val (r32 (S754_finite s m e)) = cond_Zopp s (clamp (rounded_mag m e)).
Proof.
  intros Hb. unfold r32. rewrite round32_of_double by exact Hb.
  destruct (rne_shift32_range m e Hb) as [Ha Hlow].
  destruct (bounded64 m e Hb) as (Hd & He & Hc).
  unfold rounded_mag, clamp.
  assert (HE : -149 <= e + shift32 e) by (unfold shift32; lia).
  set (E := e + shift32 e) in *.
  assert (Hp : 0 < 2 ^ (E + 1074)) by (apply Z.pow_pos_nonneg; lia).
  assert (Hpow : forall k, 0 <= k -> 2 ^ k * 2 ^ (E + 1074) = 2 ^ (k + E + 1074))
    by (intros k Hk; rewrite <- Z.pow_add_r by lia; f_equal; lia).
  destruct (rne (Z.pos m) (shift32 e)) as [|p|p] eqn:Hp0; [| |lia].
  - cbn [round_to]. split; [reflexivity|]. split; [discriminate|].
    rewrite Z.mul_0_l. cbn. destruct s; reflexivity.
  - destruct (Z.eqb_spec (Z.pos p) (2 ^ 24)) as [H24|H24].
    + rewrite H24, Hpow by lia.
      destruct (Z.leb_spec (E + 1) 104) as [Hle|Hgt].
      * destruct (val_finite_fits s (2 ^ 23) (E + 1)) as (Hv & Hn & Hval);
          [vm_compute; discriminate|lia|].
        split; [exact Hv|]. split; [exact Hn|]. rewrite Hval.
        rewrite (proj2 (Z.leb_gt _ _))
          by (apply Z.pow_lt_mono_r; lia).
        f_equal. change (Z.pos (2 ^ 23)) with (2 ^ 23).
        rewrite <- Z.pow_add_r by lia. f_equal. lia.
      * cbn [round_to]. split; [reflexivity|]. split; [discriminate|].
        rewrite (proj2 (Z.leb_le _ _)) by (apply Z.pow_le_mono_r; lia).
        reflexivity.
    + assert (Hdp : Zdigits2 (Z.pos p) <= 24).
      { rewrite Zdigits2_log2.
        assert (Z.log2 (Z.pos p) < 24) by (apply Z.log2_lt_pow2; lia). lia. }
      destruct (Z.leb_spec E 104) as [Hle|Hgt].
      * destruct (val_finite_fits s p E) as (Hv & Hn & Hval); [exact Hdp|lia|].
        split; [exact Hv|]. split; [exact Hn|]. rewrite Hval.
        rewrite (proj2 (Z.leb_gt _ _)); [reflexivity|].
        apply Z.lt_le_trans with (2 ^ 24 * 2 ^ (E + 1074)).
        -- apply Z.mul_lt_mono_pos_r; lia.
        -- rewrite Hpow by lia. apply Z.pow_le_mono_r; lia.
      * cbn [round_to]. split; [reflexivity|]. split; [discriminate|].
        rewrite (proj2 (Z.leb_le _ _)); [reflexivity|].
        apply Z.le_trans with (2 ^ 23 * 2 ^ (E + 1074)).
        -- rewrite Hpow by lia. apply Z.pow_le_mono_r; lia.
        -- apply Z.mul_le_mono_nonneg_r; [lia|]. apply Hlow. lia.
Qed.

(** The rounded magnitude grows with the magnitude. *)
Lemma rounded_mag_mono (m1 m2 : positive) (e1 e2 : Z) :
  bounded 53 1024 m1 e1 = true -> bounded 53 1024 m2 e2 = true ->
  mag m1 e1 <= mag m2 e2 -> rounded_mag m1 e1 <= rounded_mag m2 e2.
Proof.
  intros Hb1 Hb2 Hle.
  destruct (bounded64 m1 e1 Hb1) as (Hd1 & He1 & Hc1).
  destruct (bounded64 m2 e2 Hb2) as (Hd2 & He2 & Hc2).
  destruct (rne_shift32_range m1 e1 Hb1) as [Ha1 Hlow1].
  destruct (rne_shift32_range m2 e2 Hb2) as [Ha2 Hlow2].
  pose proof (Zdigits2_bounds m1) as Hm1. pose proof (Zdigits2_bounds m2) as Hm2.
  unfold rounded_mag.
  destruct (Z.lt_trichotomy e1 e2) as [Hlt|[->|Hgt]].
  - (* a smaller exponent *)
    assert (Hd53 : Zdigits2 (Z.pos m2) = 53) by lia. rewrite Hd53 in Hm2.
    assert (Hm53 : Z.pos m1 < 2 ^ 53).
    { eapply Z.lt_le_trans; [apply Hm1|]. apply Z.pow_le_mono_r; lia. }
    destruct (Z.le_gt_cases (e2 + shift32 e2) (-149)) as [Hsub|Hnorm].
    + (* both below the normal range of float32 *)
      assert (HN2 : shift32 e2 = -149 - e2) by (unfold shift32 in *; lia).
      assert (HN1 : shift32 e1 = -149 - e1) by (unfold shift32 in *; lia).
      replace (e1 + shift32 e1 + 1074) with 925 by lia.
      replace (e2 + shift32 e2 + 1074) with 925 by lia.
      apply Z.mul_le_mono_nonneg_r; [lia|].
      assert (HN : 29 <= shift32 e2 < shift32 e1) by (unfold shift32 in *; lia).
      set (N1 := shift32 e1) in *. set (N2 := shift32 e2) in *.
      destruct (Z.le_gt_cases N1 53) as [H53|H53].
      * apply Z.le_trans with (2 ^ (53 - N1)).
        -- rewrite <- (rne_exact (2 ^ (53 - N1)) N1) by lia.
           apply rne_mono; [lia|].
           rewrite <- Z.pow_add_r by lia. replace (53 - N1 + N1) with 53 by lia. lia.
        -- apply Z.le_trans with (2 ^ (52 - N2)); [apply Z.pow_le_mono_r; lia|].
           rewrite <- (rne_exact (2 ^ (52 - N2)) N2) by lia.
           apply rne_mono; [lia|].
           rewrite <- Z.pow_add_r by lia. replace (52 - N2 + N2) with 52 by lia. lia.
      * assert (Hz : rne (Z.pos m1) N1 = 0); [|lia].
        assert (H2N : 2 ^ 54 <= 2 ^ N1) by (apply Z.pow_le_mono_r; lia).
        unfold rne. rewrite Z.div_small, Z.mod_small by lia.
        rewrite (proj2 (Z.ltb_ge _ _)) by lia.
        rewrite (proj2 (Z.eqb_neq _ _)) by lia. reflexivity.
    + (* the larger one is normal in float32 *)
      assert (HN2 : shift32 e2 = 29) by (unfold shift32 in *; lia).
      specialize (Hlow2 ltac:(lia)).
      set (E1 := e1 + shift32 e1) in *. set (E2 := e2 + shift32 e2) in *.
      assert (HE : -149 <= E1 < E2) by (unfold E1, E2, shift32 in *; lia).
      apply Z.le_trans with (2 ^ 24 * 2 ^ (E1 + 1074)).
      * apply Z.mul_le_mono_nonneg_r; [apply Z.pow_nonneg|]; lia.
      * apply Z.le_trans with (2 ^ 23 * 2 ^ (E2 + 1074)).
        -- rewrite <- !Z.pow_add_r by lia. apply Z.pow_le_mono_r; lia.
        -- apply Z.mul_le_mono_nonneg_r; [apply Z.pow_nonneg|]; lia.
  - (* the same exponent *)
    assert (Hp : 0 < 2 ^ (e2 + 1074)) by (apply Z.pow_pos_nonneg; lia).
    assert (Hm : Z.pos m1 <= Z.pos m2).
    { unfold mag in Hle. apply Z.mul_le_mono_pos_r in Hle; assumption. }
    apply Z.mul_le_mono_nonneg_r; [apply Z.pow_nonneg; lia|].
    apply rne_mono; [unfold shift32|]; lia.
  - pose proof (mag_lt_exponent m2 m1 e2 e1 Hb2 Hb1 Hgt). lia.
Qed.

Lemma clamp_mono (w w' : Z) : w <= w' -> clamp w <= clamp w'.
Proof.
  intros H. unfold clamp.
  assert (2 ^ 1202 <= beyond) by (apply Z.pow_le_mono_r; lia).
  destruct (Z.leb_spec (2 ^ 1202) w), (Z.leb_spec (2 ^ 1202) w'); lia.
Qed.

Lemma clamp_range (w : Z) : 0 <= w -> 0 <= clamp w <= beyond.
Proof.
  intros H. unfold clamp.
  assert (2 ^ 1202 <= beyond) by (apply Z.pow_le_mono_r; lia).
  destruct (Z.leb_spec (2 ^ 1202) w); lia.
Qed.

Lemma rounded_mag_nonneg (m : positive) (e : Z) :
  bounded 53 1024 m e = true -> 0 <= rounded_mag m e.
Proof.
  intros Hb. destruct (rne_shift32_range m e Hb) as [Ha _].
  unfold rounded_mag. apply Z.mul_nonneg_nonneg; [lia|apply Z.pow_nonneg; lia].
Qed.

Lemma r32_valid (x : spec_float) :
  valid_binary x = true ->
  valid_binary (r32 x) = true /\ (x <> S754_nan -> r32 x <> S754_nan).
Proof.
  intros Hx. destruct x as [s|s| |s m e];
    try (split; [reflexivity|first [discriminate | intros H; exact H]]).
  destruct (r32_finite s m e Hx) as (Hv & Hn & _). split; [exact Hv|]. intros _. exact Hn.
Qed.

(** Rounding to [float32] keeps the order of the values. *)
Lemma r32_val_mono (x y : spec_float) :
  valid_binary x = true -> valid_binary y = true ->
  x <> S754_nan -> y <> S754_nan ->
  val x <= val y -> val (r32 x) <= val (r32 y).
Proof.
  intros Hx Hy Hnx Hny.
  assert (HI : 0 < beyond) by (apply Z.pow_pos_nonneg; lia).
  destruct x as [sx|sx| |sx mx ex], y as [sy|sy| |sy my ey]; try congruence;
    change (valid_binary ?x) with (SpecFloat.valid_binary 53 1024 x) in Hx, Hy;
    cbn [SpecFloat.valid_binary] in Hx, Hy;
    try (destruct (r32_finite sx mx ex Hx) as (_ & _ & ->);
         pose proof (mag_range mx ex Hx);
         pose proof (clamp_range _ (rounded_mag_nonneg mx ex Hx)));
    try (destruct (r32_finite sy my ey Hy) as (_ & _ & ->);
         pose proof (mag_range my ey Hy);
         pose proof (clamp_range _ (rounded_mag_nonneg my ey Hy)));
    try (destruct sx); try (destruct sy);
    cbn [r32 round_to val cond_Zopp]; try lia.
  - intros Hle.
    pose proof (clamp_mono _ _ (rounded_mag_mono my mx ey ex Hy Hx ltac:(lia))). lia.
  - intros Hle.
    pose proof (clamp_mono _ _ (rounded_mag_mono mx my ex ey Hx Hy ltac:(lia))). lia.
Qed.

Lemma r32_mono (x y : spec_float) :
  valid_binary x = true -> valid_binary y = true ->
  SFleb x y = true -> SFleb (r32 x) (r32 y) = true.
Proof.
  intros Hx Hy Hle.
  assert (Hnx : x <> S754_nan) by (intros ->; discriminate Hle).
  assert (Hny : y <> S754_nan) by (intros ->; destruct x; discriminate Hle).
  destruct (r32_valid x Hx) as [Hvx Hnx']. destruct (r32_valid y Hy) as [Hvy Hny'].
  unfold SFleb in *.
  rewrite (SFcompare_val x y Hx Hy Hnx Hny) in Hle.
  rewrite (SFcompare_val _ _ Hvx Hvy (Hnx' Hnx) (Hny' Hny)).
  assert (Hv : val x <= val y).
  { destruct (Z.compare_spec (val x) (val y)); [lia|lia|discriminate]. }
  pose proof (r32_val_mono x y Hx Hy Hnx Hny Hv) as Hr.
  destruct (Z.compare_spec (val (r32 x)) (val (r32 y))); [reflexivity|reflexivity|lia].
Qed.
End Float32.

Lemma Prim2SF_float32_of (t : float) : Prim2SF (float32_of t) = r32 (Prim2SF t).
Proof.
  unfold float32_of. apply Prim2SF_SF2Prim.
  apply r32_valid, Prim2SF_valid.
Qed.

(** Rounding a double to [float32] keeps the order. *)
Lemma float32_of_mono (t1 t2 : float) :
  (t1 <=? t2)%float = true -> (float32_of t1 <=? float32_of t2)%float = true.
Proof.
  rewrite !leb_spec, !Prim2SF_float32_of.
  apply r32_mono; apply Prim2SF_valid.
Qed.

(** The scalar 1.0, 0.0 and 0.5 are values of every element type. *)
Lemma as_dtype_one (dt : np_dtype) : as_dtype dt 1 = 1%float.
Proof. destruct dt; vm_compute; reflexivity. Qed.

Lemma as_dtype_zero (dt : np_dtype) : as_dtype dt 0 = 0%float.
Proof. destruct dt; vm_compute; reflexivity. Qed.


(** Converting a scalar keeps the order, and a NaN. *)
Lemma as_dtype_mono (dt : np_dtype) (t1 t2 : float) :
  (t1 <=? t2)%float = true -> (as_dtype dt t1 <=? as_dtype dt t2)%float = true.
Proof. destruct dt; cbn [as_dtype]; auto using float32_of_mono. Qed.

Lemma as_dtype_nan (dt : np_dtype) (t : float) :
  PrimFloat.is_nan t = true -> PrimFloat.is_nan (as_dtype dt t) = true.
Proof.
  intros H. assert (Ht : t = nan).
  { rewrite <- (SF2Prim_Prim2SF t). unfold Prim2SF. rewrite H. reflexivity. }
  subst t. destruct dt; vm_compute; reflexivity.
Qed.

(** ** The monad *)

Lemma fresh_loc_unused (w : world) : objects w !! fresh (dom (objects w)) = None.
Proof. apply not_elem_of_dom, is_fresh. Qed.

Lemma fresh_loc_ne (w : world) (l : loc) (a : ndarray float) :
  objects w !! l = Some a -> fresh (dom (objects w)) <> l.
Proof.
  intros Hl <-. rewrite fresh_loc_unused in Hl. discriminate.
Qed.

Lemma bind_inr {A B} (m : M A) (k : A -> M B) (w w' : world) (x : A) :
  m w = (inr x, w') -> bind m k w = k x w'.
Proof. unfold bind. intros ->. reflexivity. Qed.

Lemma bind_inl {A B} (m : M A) (k : A -> M B) (w w' : world) (e : exn) :
  m w = (inl e, w') -> bind m k w = (inl e, w').
Proof. unfold bind. intros ->. reflexivity. Qed.

Lemma deref_some (w : world) (l : loc) (a : ndarray float) :
  objects w !! l = Some a -> deref l w = (inr a, w).
Proof. unfold deref. intros ->. reflexivity. Qed.

Lemma store_some (w : world) (l : loc) (a b : ndarray float) :
  objects w !! l = Some a ->
  store l b w = (inr tt, mk_world (<[l := b]> (objects w)) (files w)).
Proof. unfold store. intros ->. reflexivity. Qed.

Lemma ndarray_copy_run (w : world) (l : loc) (a : ndarray float) :
  objects w !! l = Some a ->
  ndarray_copy l w =
    (inr (fresh (dom (objects w))),
     mk_world (<[fresh (dom (objects w)) := a]> (objects w)) (files w)).
Proof.
  intros Hl. unfold ndarray_copy.
  erewrite bind_inr by (apply deref_some; eassumption). reflexivity.
Qed.

(** ** [create_masked_stipple] *)

(** One call, run: either the shape check raises and the world is as it
    was, or one new object is allocated and returned. *)
Lemma create_masked_stipple_run (w : world) (stipple_img mask_img : loc)
    (threshold : float) (stipple mask : ndarray float) :
  objects w !! stipple_img = Some stipple ->
  objects w !! mask_img = Some mask ->
  create_masked_stipple stipple_img mask_img threshold w =
    if bool_decide (shape stipple <> shape mask)
    then (inl (ValueError (shape_mismatch_msg (shape stipple) (shape mask))), w)
    else (inr (fresh (dom (objects w))),
          mk_world (<[fresh (dom (objects w)) := biased_of stipple mask threshold]> (objects w))
                   (files w)).
Proof.
  intros Hs Hm. unfold create_masked_stipple.
  erewrite bind_inr by (apply deref_some; eassumption).
  erewrite bind_inr by (apply deref_some; eassumption).
  case_bool_decide as Hsh; [reflexivity|].
  erewrite bind_inr by (apply ndarray_copy_run; eassumption).
  set (l := fresh (dom (objects w))).
  assert (Hne : l <> mask_img) by (eapply fresh_loc_ne; eassumption).
  erewrite bind_inr
    by (apply deref_some; cbn; rewrite lookup_insert_ne by exact Hne; eassumption).
  erewrite bind_inr by (apply deref_some; cbn; apply lookup_insert_eq).
  erewrite bind_inr by (eapply store_some; cbn; apply lookup_insert_eq).
  unfold ret. cbn. rewrite insert_insert_eq. reflexivity.
Qed.

Lemma create_masked_stipple_dangling (w : world) (stipple_img mask_img : loc)
    (threshold : float) :
  objects w !! stipple_img = None \/ objects w !! mask_img = None ->
  create_masked_stipple stipple_img mask_img threshold w = (inl InvalidReference, w).
Proof.
  intros H. unfold create_masked_stipple, bind, deref at 1 2.
  destruct (objects w !! stipple_img) eqn:Hs; [|reflexivity].
  destruct H as [H|H]; [discriminate|]. rewrite H. reflexivity.
Qed.

Lemma biased_of_lookup (stipple mask : ndarray float) (threshold : float) (k : nat) :
  data (biased_of stipple mask threshold) !! k =
    (fun x => if default false
                   ((fun y => y <? as_dtype (dtype mask) threshold)%float <$>
                    data mask !! k)
              then 1%float else x) <$> data stipple !! k.
Proof.
  unfold biased_of, setitem_bool, lt_scalar. cbn.
  rewrite list_lookup_imap, list_lookup_fmap, as_dtype_one. reflexivity.
Qed.

Lemma biased_of_shape (stipple mask : ndarray float) (threshold : float) :
  shape (biased_of stipple mask threshold) = shape stipple.
Proof. reflexivity. Qed.

Lemma biased_of_dtype (stipple mask : ndarray float) (threshold : float) :
  dtype (biased_of stipple mask threshold) = dtype stipple.
Proof. reflexivity. Qed.

Lemma biased_of_length (stipple mask : ndarray float) (threshold : float) :
  length (data (biased_of stipple mask threshold)) = length (data stipple).
Proof. unfold biased_of, setitem_bool. cbn. apply length_imap. Qed.

(** In a well-formed two-dimensional array every in-range position holds
    an element. *)
Lemma item2_in_range {A} (a : ndarray A) (h wd i j : Z) :
  wf_ndarray a -> shape a = [h; wd] ->
  (0 <= i < h)%Z -> (0 <= j < wd)%Z ->
  exists x, data a !! Z.to_nat (i * wd + j) = Some x /\ item2 a i j = Some x.
Proof.
  intros [_ Hlen] Hsh Hi Hj.
  assert (Hlt : (Z.to_nat (i * wd + j) < length (data a))%nat).
  { rewrite Hlen, Hsh. cbn. nia. }
  destruct (lookup_lt_is_Some_2 _ _ Hlt) as [x Hx].
  exists x. split; [exact Hx|].
  unfold item2. rewrite Hsh. rewrite bool_decide_eq_true_2 by lia. exact Hx.
Qed.

(** The IEEE comparisons: equal floats are not strictly ordered. *)
Lemma float_eqb_not_ltb (x y : float) :
  (x =? y)%float = true -> (x <? y)%float = false.
Proof.
  rewrite FloatAxioms.eqb_spec, ltb_spec. unfold SFeqb, SFltb.
  destruct (SFcompare _ _) as [[]|]; congruence.
Qed.

(** C1.  For a sample and a mask of one shape and any threshold,
    [create_masked_stipple] returns a new array of that shape whose
    element at every position (i, j) is 1.0 where [mask[i,j] < threshold]
    and [sample[i,j]] elsewhere, the comparison being made at the element
    type of the mask: against a [float32] mask the threshold is rounded to
    [float32] first.  Where [mask[i,j] == threshold], compared the same
    way, the sample value is kept.  For a mask that is not [float32], and
    for a threshold that is a [float32] value, the threshold is compared as
    it is. *)
Theorem masked_stipple_elementwise (w : world) (stipple_img mask_img : loc)
    (threshold : float) (stipple mask : ndarray float) :
  objects w !! stipple_img = Some stipple ->
  objects w !! mask_img = Some mask ->
  wf_ndarray stipple -> wf_ndarray mask ->
  shape stipple = shape mask ->
  exists (l : loc) (biased : ndarray float),
    create_masked_stipple stipple_img mask_img threshold w =
      (inr l, mk_world (<[l := biased]> (objects w)) (files w)) /\
    shape biased = shape stipple /\
    (forall h wd i j : Z,
       shape stipple = [h; wd] -> (0 <= i < h)%Z -> (0 <= j < wd)%Z ->
       exists s m : float,
         item2 stipple i j = Some s /\ item2 mask i j = Some m /\
         item2 biased i j =
           Some (if (m <? as_dtype (dtype mask) threshold)%float then 1%float else s) /\
         ((m =? as_dtype (dtype mask) threshold)%float = true ->
          item2 biased i j = Some s)) /\
    (dtype mask <> np_float32 \/ float32_of threshold = threshold ->
     as_dtype (dtype mask) threshold = threshold).
Proof.
  intros Hs Hm Hwfs Hwfm Hsh.
  exists (fresh (dom (objects w))), (biased_of stipple mask threshold).
  split.
  { rewrite (create_masked_stipple_run w _ _ _ stipple mask Hs Hm).
    rewrite bool_decide_eq_false_2 by (intros Hne; apply Hne, Hsh). reflexivity. }
  split; [apply biased_of_shape|]. split.
  - intros h wd i j Hhw Hi Hj.
    destruct (item2_in_range stipple h wd i j Hwfs Hhw Hi Hj) as (s & Hks & Hsij).
    assert (Hhw' : shape mask = [h; wd]) by congruence.
    destruct (item2_in_range mask h wd i j Hwfm Hhw' Hi Hj) as (m & Hkm & Hmij).
    exists s, m. split; [exact Hsij|]. split; [exact Hmij|].
    assert (Hb : item2 (biased_of stipple mask threshold) i j =
                 Some (if (m <? as_dtype (dtype mask) threshold)%float
                       then 1%float else s)).
    { unfold item2. rewrite biased_of_shape, Hhw.
      rewrite bool_decide_eq_true_2 by lia.
      rewrite biased_of_lookup, Hks, Hkm. reflexivity. }
    split; [exact Hb|].
    intros Heq. rewrite Hb, (float_eqb_not_ltb _ _ Heq). reflexivity.
  - intros [Hdt|Hrep]; destruct (dtype mask); cbn [as_dtype]; congruence.
Qed.

Lemma masked_stipple_elementwise_witness :
  exists (l : loc) (biased : ndarray float),
    create_masked_stipple 1%positive 2%positive 0.7%float world_float32 =
      (inr l, mk_world (<[l := biased]> (objects world_float32)) (files world_float32)) /\
    shape biased = shape sample_1x2 /\
    (forall h wd i j : Z,
       shape sample_1x2 = [h; wd] -> (0 <= i < h)%Z -> (0 <= j < wd)%Z ->
       exists s m : float,
         item2 sample_1x2 i j = Some s /\ item2 mask_float32 i j = Some m /\
         item2 biased i j =
           Some (if (m <? as_dtype (dtype mask_float32) 0.7)%float
                 then 1%float else s) /\
         ((m =? as_dtype (dtype mask_float32) 0.7)%float = true ->
          item2 biased i j = Some s)) /\
    (dtype mask_float32 <> np_float32 \/ float32_of 0.7 = 0.7%float ->
     as_dtype (dtype mask_float32) 0.7 = 0.7%float).
Proof.
  apply (masked_stipple_elementwise world_float32 1%positive 2%positive 0.7%float
           sample_1x2 mask_float32).
  - reflexivity.
  - reflexivity.
  - split; [repeat constructor; lia | reflexivity].
  - split; [repeat constructor; lia | reflexivity].
  - reflexivity.
Defined.

(** The claim as the specification words it, with the threshold compared
    as given, fails on a [float32] mask: the cell (0, 0) of the mask holds
    [float32(0.7)], which is below the threshold 0.7, and yet keeps its
    sample value 0.0, because numpy compares it with [float32(0.7)]. *)
Lemma masked_stipple_float32_threshold :
  item2 sample_1x2 0 0 = Some 0%float /\
  item2 mask_float32 0 0 = Some (float32_of 0.7) /\
  (float32_of 0.7 <? 0.7)%float = true /\
  observe (create_masked_stipple 1%positive 2%positive 0.7%float world_float32) =
    inr (Some (mk_ndarray np_float64 [1; 2]%Z [0; 1]%float)).
Proof. vm_compute. repeat split; reflexivity. Qed.

(** The tie-break on a concrete state: the cell (0, 1) of the mask equals
    the threshold and keeps the sample value; the cell (0, 0) is below the
    threshold and becomes 1.0. *)
Example masked_stipple_tie_break :
  observe (create_masked_stipple 1%positive 2%positive 0.5%float world_2x2) =
    inr (Some (mk_ndarray np_float64 [2; 2]%Z [1; 0; 0.3; 0.25]%float)).
Proof. vm_compute. reflexivity. Qed.

(** ** Strings *)

Lemma string_app_nil_r (s : string) : s +:+ "" = s.
Proof.
  induction s as [|c s IH]; [reflexivity|].
  change (String c (s +:+ "") = String c s). rewrite IH. reflexivity.
Qed.

Lemma string_app_assoc (s1 s2 s3 : string) : (s1 +:+ s2) +:+ s3 = s1 +:+ (s2 +:+ s3).
Proof.
  induction s1 as [|c s1 IH]; [reflexivity|].
  change (String c ((s1 +:+ s2) +:+ s3) = String c (s1 +:+ (s2 +:+ s3))).
  rewrite IH. reflexivity.
Qed.

Lemma mentions_intro (pre part post : string) : mentions (pre +:+ part +:+ post) part.
Proof. exists pre, post. reflexivity. Qed.

Lemma mentions_at_end (pre part : string) : mentions (pre +:+ part) part.
Proof. exists pre, "". rewrite string_app_nil_r. reflexivity. Qed.

Lemma mentions_app_r (pre msg part : string) :
  mentions msg part -> mentions (pre +:+ msg) part.
Proof.
  intros (a & b & ->). exists (pre +:+ a), b. rewrite string_app_assoc. reflexivity.
Qed.

Lemma shape_mismatch_msg_mentions (s1 s2 : list Z) :
  mentions (shape_mismatch_msg s1 s2) (repr_tuple s1) /\
  mentions (shape_mismatch_msg s1 s2) (repr_tuple s2).
Proof.
  unfold shape_mismatch_msg. split.
  - apply mentions_intro.
  - do 2 apply mentions_app_r. apply mentions_at_end.
Qed.

(** C2.  [create_masked_stipple] raises its shape error, a [ValueError]
    whose message names both shapes, exactly when the shape of the sample
    differs from the shape of the mask; with equal shapes it returns. *)
Theorem masked_stipple_shape_mismatch (w : world) (stipple_img mask_img : loc)
    (threshold : float) (stipple mask : ndarray float) :
  objects w !! stipple_img = Some stipple ->
  objects w !! mask_img = Some mask ->
  (shape stipple <> shape mask <->
     exists msg w', create_masked_stipple stipple_img mask_img threshold w =
                      (inl (ValueError msg), w')) /\
  (shape stipple <> shape mask ->
     create_masked_stipple stipple_img mask_img threshold w =
       (inl (ValueError (shape_mismatch_msg (shape stipple) (shape mask))), w) /\
     mentions (shape_mismatch_msg (shape stipple) (shape mask)) (repr_tuple (shape stipple)) /\
     mentions (shape_mismatch_msg (shape stipple) (shape mask)) (repr_tuple (shape mask))) /\
  (shape stipple = shape mask ->
     exists l w', create_masked_stipple stipple_img mask_img threshold w = (inr l, w')).
Proof.
  intros Hs Hm.
  rewrite (create_masked_stipple_run w _ _ _ stipple mask Hs Hm).
  case_bool_decide as Hsh.
  - split; [|split].
    + split; [eauto|intros _; exact Hsh].
    + intros _. split; [reflexivity|]. apply shape_mismatch_msg_mentions.
    + intros Heq. contradiction.
  - split; [|split].
    + split; [intros Hne; contradiction|]. intros (msg & w' & Hr). discriminate.
    + intros Hne. contradiction.
    + intros _. eauto.
Qed.

Lemma masked_stipple_shape_mismatch_witness :
  (shape sample_4x4 <> shape mask_4x5 <->
     exists msg w', create_masked_stipple 1%positive 2%positive 0.5%float world_4x4_4x5 =
                      (inl (ValueError msg), w')) /\
  (shape sample_4x4 <> shape mask_4x5 ->
     create_masked_stipple 1%positive 2%positive 0.5%float world_4x4_4x5 =
       (inl (ValueError (shape_mismatch_msg (shape sample_4x4) (shape mask_4x5))),
        world_4x4_4x5) /\
     mentions (shape_mismatch_msg (shape sample_4x4) (shape mask_4x5))
              (repr_tuple (shape sample_4x4)) /\
     mentions (shape_mismatch_msg (shape sample_4x4) (shape mask_4x5))
              (repr_tuple (shape mask_4x5))) /\
  (shape sample_4x4 = shape mask_4x5 ->
     exists l w', create_masked_stipple 1%positive 2%positive 0.5%float world_4x4_4x5 =
                    (inr l, w')).
Proof.
  apply (masked_stipple_shape_mismatch world_4x4_4x5 1%positive 2%positive 0.5%float
           sample_4x4 mask_4x5); reflexivity.
Defined.

(** The specification's example: a (4, 4) sample with a (4, 5) mask. *)
Example masked_stipple_4x4_4x5 :
  create_masked_stipple 1%positive 2%positive 0.5%float world_4x4_4x5 =
    (inl (ValueError "stipple_img shape (4, 4) does not match mask_img shape (4, 5)"),
     world_4x4_4x5).
Proof.
  rewrite (create_masked_stipple_run world_4x4_4x5 _ _ _ sample_4x4 mask_4x5)
    by reflexivity.
  reflexivity.
Qed.

(** What one call leaves of the state it started in: every object that
    was alive is still there with the same contents, and no file changed. *)
Lemma create_masked_stipple_frame (w : world) (stipple_img mask_img : loc)
    (threshold : float) :
  (forall l a, objects w !! l = Some a ->
     objects (create_masked_stipple stipple_img mask_img threshold w).2 !! l = Some a) /\
  files (create_masked_stipple stipple_img mask_img threshold w).2 = files w.
Proof.
  destruct (objects w !! stipple_img) as [stipple|] eqn:Hs;
    [destruct (objects w !! mask_img) as [mask|] eqn:Hm|].
  - rewrite (create_masked_stipple_run w _ _ _ stipple mask Hs Hm).
    case_bool_decide; cbn; [tauto|]. split; [|reflexivity].
    intros l a Hl. rewrite lookup_insert_ne; [exact Hl|].
    eapply fresh_loc_ne; eassumption.
  - rewrite create_masked_stipple_dangling by (right; exact Hm). cbn. tauto.
  - rewrite create_masked_stipple_dangling by (left; exact Hs). cbn. tauto.
Qed.

(** C5.  [create_masked_stipple] does not mutate its sample: after the
    call the sample object holds the values it held before (the result is
    a new object), and so does every other object. *)
Theorem masked_stipple_keeps_sample (w : world) (stipple_img mask_img : loc)
    (threshold : float) (stipple mask : ndarray float) :
  objects w !! stipple_img = Some stipple ->
  objects w !! mask_img = Some mask ->
  shape stipple = shape mask ->
  exists l w',
    create_masked_stipple stipple_img mask_img threshold w = (inr l, w') /\
    l <> stipple_img /\
    objects w' !! stipple_img = Some stipple /\
    objects w' !! mask_img = Some mask /\
    (forall l' a, objects w !! l' = Some a -> objects w' !! l' = Some a).
Proof.
  intros Hs Hm Hsh.
  pose proof (create_masked_stipple_frame w stipple_img mask_img threshold) as [Hfr _].
  rewrite (create_masked_stipple_run w _ _ _ stipple mask Hs Hm) in *.
  rewrite bool_decide_eq_false_2 in * by (intros Hne; apply Hne, Hsh).
  eexists _, _. split; [reflexivity|].
  split; [eapply fresh_loc_ne; eassumption|].
  cbn in Hfr. auto.
Qed.

Lemma masked_stipple_keeps_sample_witness :
  exists l w',
    create_masked_stipple 1%positive 2%positive 0.5%float world_2x2 = (inr l, w') /\
    l <> 1%positive /\
    objects w' !! 1%positive = Some sample_2x2 /\
    objects w' !! 2%positive = Some mask_2x2 /\
    (forall l' a, objects world_2x2 !! l' = Some a -> objects w' !! l' = Some a).
Proof.
  apply (masked_stipple_keeps_sample world_2x2 1%positive 2%positive 0.5%float
           sample_2x2 mask_2x2); reflexivity.
Defined.

(** What a call shows its caller depends only on the contents of the two
    arrays and on the threshold. *)
Lemma observe_create_masked_stipple (w : world) (stipple_img mask_img : loc)
    (threshold : float) (stipple mask : ndarray float) :
  objects w !! stipple_img = Some stipple ->
  objects w !! mask_img = Some mask ->
  observe (create_masked_stipple stipple_img mask_img threshold w) =
    if bool_decide (shape stipple <> shape mask)
    then inl (ValueError (shape_mismatch_msg (shape stipple) (shape mask)))
    else inr (Some (biased_of stipple mask threshold)).
Proof.
  intros Hs Hm. rewrite (create_masked_stipple_run w _ _ _ stipple mask Hs Hm).
  case_bool_decide; [reflexivity|]. cbn. rewrite lookup_insert_eq. reflexivity.
Qed.

(** C6.  [create_masked_stipple] is deterministic: two calls whose sample,
    mask and threshold are identical show the same outcome, the same
    exception or arrays with identical contents, whatever else the two
    states hold; in particular a second call made right after the first. *)
Theorem masked_stipple_deterministic (w1 w2 : world)
    (stipple_img1 mask_img1 stipple_img2 mask_img2 : loc)
    (threshold : float) (stipple mask : ndarray float) :
  objects w1 !! stipple_img1 = Some stipple ->
  objects w1 !! mask_img1 = Some mask ->
  objects w2 !! stipple_img2 = Some stipple ->
  objects w2 !! mask_img2 = Some mask ->
  observe (create_masked_stipple stipple_img1 mask_img1 threshold w1) =
    observe (create_masked_stipple stipple_img2 mask_img2 threshold w2) /\
  observe (create_masked_stipple stipple_img1 mask_img1 threshold
             (create_masked_stipple stipple_img1 mask_img1 threshold w1).2) =
    observe (create_masked_stipple stipple_img1 mask_img1 threshold w1).
Proof.
  intros Hs1 Hm1 Hs2 Hm2. split.
  - rewrite (observe_create_masked_stipple w1 _ _ _ stipple mask Hs1 Hm1).
    rewrite (observe_create_masked_stipple w2 _ _ _ stipple mask Hs2 Hm2).
    reflexivity.
  - pose proof (create_masked_stipple_frame w1 stipple_img1 mask_img1 threshold)
      as [Hfr _].
    rewrite (observe_create_masked_stipple _ _ _ _ stipple mask
               (Hfr _ _ Hs1) (Hfr _ _ Hm1)).
    rewrite (observe_create_masked_stipple w1 _ _ _ stipple mask Hs1 Hm1).
    reflexivity.
Qed.

Lemma masked_stipple_deterministic_witness :
  observe (create_masked_stipple 1%positive 2%positive 0.5%float world_2x2) =
    observe (create_masked_stipple 1%positive 2%positive 0.5%float world_2x2) /\
  observe (create_masked_stipple 1%positive 2%positive 0.5%float
             (create_masked_stipple 1%positive 2%positive 0.5%float world_2x2).2) =
    observe (create_masked_stipple 1%positive 2%positive 0.5%float world_2x2).
Proof.
  apply (masked_stipple_deterministic world_2x2 world_2x2
           1%positive 2%positive 1%positive 2%positive 0.5%float
           sample_2x2 mask_2x2); reflexivity.
Defined.

(** Masking a second time changes nothing. *)
Lemma biased_of_idempotent (stipple mask : ndarray float) (threshold : float) :
  biased_of (biased_of stipple mask threshold) mask threshold =
  biased_of stipple mask threshold.
Proof.
  unfold biased_of at 1 3. unfold setitem_bool. cbn. f_equal.
  apply list_eq. intros k. rewrite !list_lookup_imap.
  destruct (data stipple !! k) as [x|]; cbn; [|reflexivity].
  destruct (default false _); reflexivity.
Qed.

(** C10.  Masking is idempotent: applying [create_masked_stipple] to its
    own output, with the same mask and threshold, returns an array equal
    to that output. *)
Theorem masked_stipple_idempotent (w : world) (stipple_img mask_img : loc)
    (threshold : float) (stipple mask : ndarray float) :
  objects w !! stipple_img = Some stipple ->
  objects w !! mask_img = Some mask ->
  shape stipple = shape mask ->
  exists (l1 l2 : loc) (w1 w2 : world) (biased : ndarray float),
    create_masked_stipple stipple_img mask_img threshold w = (inr l1, w1) /\
    objects w1 !! l1 = Some biased /\
    create_masked_stipple l1 mask_img threshold w1 = (inr l2, w2) /\
    objects w2 !! l2 = Some biased.
Proof.
  intros Hs Hm Hsh.
  pose proof (create_masked_stipple_frame w stipple_img mask_img threshold) as [Hfr _].
  pose proof (Hfr _ _ Hm) as Hm1. clear Hfr.
  rewrite (create_masked_stipple_run w _ _ _ stipple mask Hs Hm) in *.
  rewrite bool_decide_eq_false_2 in * by (intros Hne; apply Hne, Hsh).
  cbn in Hm1.
  set (w1 := mk_world _ _) in *.
  assert (Hl1 : objects w1 !! fresh (dom (objects w)) =
                Some (biased_of stipple mask threshold))
    by apply lookup_insert_eq.
  eexists _, _, w1, _, (biased_of stipple mask threshold).
  split; [reflexivity|]. split; [exact Hl1|].
  rewrite (create_masked_stipple_run w1 _ _ _ _ mask Hl1 Hm1).
  rewrite bool_decide_eq_false_2
    by (intros Hne; apply Hne; rewrite biased_of_shape; exact Hsh).
  split; [reflexivity|]. cbn.
  rewrite lookup_insert_eq, biased_of_idempotent. reflexivity.
Qed.

Lemma masked_stipple_idempotent_witness :
  exists (l1 l2 : loc) (w1 w2 : world) (biased : ndarray float),
    create_masked_stipple 1%positive 2%positive 0.5%float world_2x2 = (inr l1, w1) /\
    objects w1 !! l1 = Some biased /\
    create_masked_stipple l1 2%positive 0.5%float w1 = (inr l2, w2) /\
    objects w2 !! l2 = Some biased.
Proof.
  apply (masked_stipple_idempotent world_2x2 1%positive 2%positive 0.5%float
           sample_2x2 mask_2x2); reflexivity.
Defined.

(** ** [create_statistics_meme] *)

Lemma size_gt_1 (X : gset (list Z)) (x y : list Z) :
  x <> y -> x ∈ X -> y ∈ X -> (1 < size X)%nat.
Proof.
  intros Hne Hx Hy.
  assert (Hsub : ({[x]} ∪ {[y]} : gset (list Z)) ⊆ X) by set_solver.
  apply subseteq_size in Hsub.
  rewrite size_union in Hsub by set_solver.
  rewrite !size_singleton in Hsub. lia.
Qed.

(** [len(set(shapes)) > 1] says that the four shapes are not all equal. *)
Lemma distinct_shapes_iff (s1 s2 s3 s4 : list Z) :
  (1 < size (list_to_set (C := gset (list Z)) [s1; s2; s3; s4]))%nat <->
  ~ (s1 = s2 /\ s2 = s3 /\ s3 = s4).
Proof.
  split.
  - intros Hsz (-> & -> & ->).
    assert (Heq : list_to_set (C := gset (list Z)) [s4; s4; s4; s4] = {[s4]})
      by set_solver.
    rewrite Heq, size_singleton in Hsz. lia.
  - intros Hne.
    destruct (decide (s1 = s2)) as [->|H12];
      [destruct (decide (s2 = s3)) as [->|H23];
         [destruct (decide (s3 = s4)) as [->|H34]|]|].
    + exfalso. apply Hne. auto.
    + apply (size_gt_1 _ s3 s4 H34); set_solver.
    + apply (size_gt_1 _ s2 s3 H23); set_solver.
    + apply (size_gt_1 _ s1 s2 H12); set_solver.
Qed.

Lemma same_shape_msg_mentions (shapes : list (list Z)) (sh : list Z) :
  sh ∈ shapes -> mentions (same_shape_msg shapes) (repr_tuple sh).
Proof.
  intros Hin. unfold same_shape_msg, repr_list.
  do 2 apply mentions_app_r.
  induction Hin as [sh rest|sh sh' rest Hin IH].
  - destruct rest as [|sh2 rest].
    + exists "", "]". reflexivity.
    + change (mentions ((repr_tuple sh +:+ ", " +:+
                         String.concat ", " (repr_tuple <$> (sh2 :: rest))) +:+ "]")
                       (repr_tuple sh)).
      rewrite string_app_assoc. exists "". eexists. reflexivity.
  - destruct rest as [|sh2 rest]; [inversion Hin|].
    change (mentions ((repr_tuple sh' +:+ ", " +:+
                       String.concat ", " (repr_tuple <$> (sh2 :: rest))) +:+ "]")
                     (repr_tuple sh)).
    rewrite !string_app_assoc.
    do 2 apply mentions_app_r. exact IH.
Qed.

(** C9.  When the four fields of a run do not all have one shape,
    [create_statistics_meme] raises a [ValueError] whose message reports the
    four shapes, and the call writes no file: the state after the call is
    the state before it. *)
Theorem statistics_meme_shape_mismatch {Plt : Pyplot} (w : world)
    (original_img stipple_img block_letter_img masked_stipple_img : loc)
    (output_path : string) (dpi : Z) (background_color : string)
    (original stipple block_letter masked_stipple : ndarray float) :
  objects w !! original_img = Some original ->
  objects w !! stipple_img = Some stipple ->
  objects w !! block_letter_img = Some block_letter ->
  objects w !! masked_stipple_img = Some masked_stipple ->
  ~ (shape original = shape stipple /\ shape stipple = shape block_letter /\
     shape block_letter = shape masked_stipple) ->
  let shapes := [shape original; shape stipple; shape block_letter;
                 shape masked_stipple] in
  create_statistics_meme original_img stipple_img block_letter_img
      masked_stipple_img output_path dpi background_color w =
    (inl (ValueError (same_shape_msg shapes)), w) /\
  (forall sh, sh ∈ shapes -> mentions (same_shape_msg shapes) (repr_tuple sh)) /\
  files (create_statistics_meme original_img stipple_img block_letter_img
           masked_stipple_img output_path dpi background_color w).2 = files w.
Proof.
  intros Ho Hs Hb Hm Hne shapes.
  assert (Hrun : create_statistics_meme original_img stipple_img block_letter_img
                   masked_stipple_img output_path dpi background_color w =
                 (inl (ValueError (same_shape_msg shapes)), w)).
  { unfold create_statistics_meme.
    do 4 (erewrite bind_inr by (apply deref_some; eassumption)).
    cbn [fmap list_fmap].
    rewrite bool_decide_eq_true_2 by (apply distinct_shapes_iff; exact Hne).
    reflexivity. }
  split; [exact Hrun|]. split.
  - intros sh Hin. apply same_shape_msg_mentions. exact Hin.
  - rewrite Hrun. reflexivity.
Qed.

Lemma statistics_meme_shape_mismatch_witness :
  let shapes := [shape sample_4x4; shape sample_4x4; shape mask_4x5; shape sample_4x4] in
  create_statistics_meme (Plt := signature_pyplot) 1%positive 2%positive 3%positive
      4%positive "meme.png" 150 "white" world_panels =
    (inl (ValueError (same_shape_msg shapes)), world_panels) /\
  (forall sh, sh ∈ shapes -> mentions (same_shape_msg shapes) (repr_tuple sh)) /\
  files (create_statistics_meme (Plt := signature_pyplot) 1%positive 2%positive
           3%positive 4%positive "meme.png" 150 "white" world_panels).2 =
    files world_panels.
Proof.
  apply (statistics_meme_shape_mismatch (Plt := signature_pyplot) world_panels
           1%positive 2%positive 3%positive 4%positive "meme.png" 150 "white"
           sample_4x4 sample_4x4 mask_4x5 sample_4x4);
    try reflexivity.
  intros (_ & H & _). discriminate H.
Defined.

(** The message on that state, and the file system after the call. *)
Example statistics_meme_4x4_4x5 :
  create_statistics_meme (Plt := signature_pyplot) 1%positive 2%positive 3%positive
      4%positive "meme.png" 150 "white" world_panels =
    (inl (ValueError
       "All images must have the same shape. Got shapes: [(4, 4), (4, 4), (4, 5), (4, 4)]"),
     world_panels) /\
  files world_panels !! "meme.png" = None.
Proof. split; vm_compute; reflexivity. Qed.


(** ** [create_block_letter_s] *)

Lemma max_line_eq : max_line = 536870910%Z.
Proof. reflexivity. Qed.

Lemma Image_new_negative (width height : Z) (color : byte) :
  (width < 0 \/ height < 0)%Z ->
  Image_new width height color = inl (ValueError "Width and height must be >= 0").
Proof. intros H. unfold Image_new. rewrite bool_decide_eq_true_2 by exact H. reflexivity. Qed.

Lemma Image_new_overflow (width height : Z) (color : byte) :
  (0 <= width)%Z -> (0 <= height)%Z -> (2 ^ 31 <= width \/ 2 ^ 31 <= height)%Z ->
  exists msg, Image_new width height color = inl (OverflowError msg).
Proof.
  intros Hw Hh H. unfold Image_new, c_int_overflow.
  rewrite bool_decide_eq_false_2 by lia.
  repeat case_bool_decide; eauto; lia.
Qed.

Lemma Image_new_memory (width height : Z) (color : byte) :
  (max_line < width < 2 ^ 31)%Z -> (0 <= height < 2 ^ 31)%Z ->
  Image_new width height color = inl MemoryError.
Proof.
  rewrite max_line_eq. intros Hw Hh. unfold Image_new.
  rewrite bool_decide_eq_false_2 by lia.
  rewrite bool_decide_eq_false_2 by lia.
  rewrite bool_decide_eq_false_2 by lia.
  rewrite bool_decide_eq_true_2 by (rewrite max_line_eq; lia). reflexivity.
Qed.

Lemma Image_new_fits (width height : Z) (color : byte) :
  (0 <= width <= max_line)%Z -> (0 <= height < 2 ^ 31)%Z ->
  Image_new width height color =
    inr (mk_image width height (replicate (Z.to_nat (width * height)) color)).
Proof.
  rewrite max_line_eq. intros Hw Hh. unfold Image_new.
  rewrite bool_decide_eq_false_2 by lia.
  rewrite bool_decide_eq_false_2 by lia.
  rewrite bool_decide_eq_false_2 by lia.
  rewrite bool_decide_eq_false_2 by (rewrite max_line_eq; lia). reflexivity.
Qed.

Lemma Image_new_inr (width height : Z) (color : byte) (img : image) :
  Image_new width height color = inr img ->
  (0 <= width <= max_line)%Z /\ (0 <= height < 2 ^ 31)%Z /\
  img = mk_image width height (replicate (Z.to_nat (width * height)) color).
Proof.
  unfold Image_new. intros H.
  case_bool_decide as H1; [discriminate|].
  case_bool_decide as H2; [discriminate|].
  case_bool_decide as H3; [discriminate|].
  case_bool_decide as H4; [discriminate|].
  inversion H. split; [lia|]. split; [lia|reflexivity].
Qed.

Lemma paint_same_size (p : painter) (img : image) : same_size img (paint p img).
Proof. unfold same_size, paint. cbn. rewrite length_imap. auto. Qed.

Lemma perform_same_size {P : Pillow} (c : draw_call) (img img' : image) :
  perform c img = inr img' -> same_size img img'.
Proof.
  unfold perform, ebind. intros H.
  destruct c; match type of H with match ?r with _ => _ end = _ => destruct r end;
    inversion H; apply paint_same_size.
Qed.

Lemma perform_all_same_size {P : Pillow} (cs : list draw_call) (img img' : image) :
  perform_all cs img = inr img' -> same_size img img'.
Proof.
  revert img. induction cs as [|c cs IH]; intros img H; cbn in H.
  - inversion H. unfold same_size. auto.
  - unfold ebind in H. destruct (perform c img) as [e|img1] eqn:Hc; [discriminate|].
    apply perform_same_size in Hc. apply IH in H.
    unfold same_size in *. intuition congruence.
Qed.

Lemma is_ValueError_inv (e : exn) : is_ValueError e = true -> exists msg, e = ValueError msg.
Proof. destruct e; try discriminate. eauto. Qed.

Section Contract.
Context {P : Pillow} (HP : pillow_contract P).


(** At any font size it ends without an exception or with a [ValueError]. *)
Lemma try_font_paths_sizeless (paths : list string) (size : Z) :
  (exists found, try_font_paths paths size = inr found) \/
  (exists msg, try_font_paths paths size = inl (ValueError msg)).
Proof.
  induction paths as [|path paths IH]; cbn; [eauto|].
  destruct (ImageFont_truetype path size) as [e|f] eqn:Ht; [|eauto].
  destruct (truetype_raises P HP _ _ _ Ht) as [->|[_ He]]; [exact IH|].
  destruct (is_ValueError_inv e He) as [msg ->]. cbn. eauto.
Qed.

Lemma measure_text_handled (fnt : option font) (letter : string) (height width : Z) :
  (0 <= height < 2 ^ 53)%Z -> (0 <= width < 2 ^ 53)%Z ->
  exists extent, measure_text fnt letter height width = inr extent.
Proof.
  intros Hh Hw. unfold measure_text. destruct fnt as [f|].
  - destruct (ImageDraw_textbbox (0, 0)%Z letter f) as [e|[[[x0 y0] x1] y1]] eqn:Hb;
      [|eauto].
    destruct (textbbox_raises_AttributeError P HP _ _ _ _ Hb) as [-> [wh ->]]. eauto.
  - destruct (int_mul_defined width 0.6%float Hw) as [tw ->]; [reflexivity..|].
    destruct (int_mul_defined height 0.8%float Hh) as [th ->]; [reflexivity..|].
    cbn. eauto.
Qed.

Lemma letter_calls_handled (fnt : option font) (letter : string) (height width : Z)
    (xy : Z * Z) :
  (0 <= height < 2 ^ 53)%Z -> (0 <= width < 2 ^ 53)%Z ->
  exists calls, letter_calls fnt letter height width xy = inr calls.
Proof.
  intros Hh Hw. unfold letter_calls, fallback_calls. destruct fnt as [f|]; [eauto|].
  destruct (int_mul_defined width 0.5%float Hw) as [sw ->]; [reflexivity..|].
  destruct (int_mul_defined height 0.7%float Hh) as [sh ->]; [reflexivity..|].
  cbn. eauto.
Qed.

Lemma perform_all_handled (cs : list draw_call) (img : image) :
  exists img', perform_all cs img = inr img'.
Proof.
  revert img. induction cs as [|c cs IH]; intros img; cbn; [eauto|].
  assert (Hc : exists img1, perform c img = inr img1).
  { unfold perform. destruct c as [xy text fill f|box start stop fill wd|box fill].
    - destruct (text_draws P HP xy text fill f) as [p ->]. cbn. eauto.
    - destruct (arc_draws P HP box start stop fill wd) as [p ->]. cbn. eauto.
    - destruct (rectangle_draws P HP box fill) as [p ->]. cbn. eauto. }
  destruct Hc as [img1 ->]. cbn. apply IH.
Qed.

(** With a size that [Image.new] accepts, a font size that is defined and
    a font loop that ended, the image is drawn: nothing is raised, and the
    image has the requested width and height and that many pixels. *)
Lemma draw_block_letter_found (height width : Z) (letter : string)
    (font_size_ratio : float) (size : Z) (found : option font) :
  (0 <= height < 2 ^ 31)%Z -> (0 <= width <= max_line)%Z ->
  int_mul (Z.min height width) font_size_ratio = inr size ->
  try_font_paths font_paths size = inr found ->
  exists img, draw_block_letter height width letter font_size_ratio = inr img /\
              im_width img = width /\ im_height img = height /\
              length (im_data img) = Z.to_nat (width * height).
Proof.
  intros Hh Hw Hsize Hfound. unfold draw_block_letter.
  rewrite Image_new_fits by assumption. cbn [ebind].
  rewrite Hsize. cbn [ebind]. rewrite Hfound. cbn [ebind].
  rewrite max_line_eq in Hw.
  destruct (measure_text_handled (or_default_font found) letter height width)
    as [extent ->]; [lia|lia|]. cbn [ebind].
  destruct (letter_calls_handled (or_default_font found) letter height width
              (center_offsets height width extent.1 extent.2)) as [calls ->];
    [lia|lia|].
  cbn [ebind].
  match goal with |- context [perform_all calls ?i] =>
    destruct (perform_all_handled calls i) as [img Himg] end.
  exists img. split; [exact Himg|].
  apply perform_all_same_size in Himg. destruct Himg as (-> & -> & ->). cbn.
  rewrite length_replicate. auto.
Qed.


End Contract.




Lemma create_block_letter_s_run {P : Pillow} (height width : Z) (letter : string)
    (font_size_ratio : float) (w : world) :
  create_block_letter_s height width letter font_size_ratio w =
    match draw_block_letter height width letter font_size_ratio with
    | inl e => (inl e, w)
    | inr img =>
        if bool_decide (im_data img = [])
        then (inl (ValueError
                "zero-size array to reduction operation minimum which has no identity"),
              w)
        else
          (inr (fresh (dom (objects w))),
           mk_world (<[fresh (dom (objects w)) := normalized_array img]> (objects w))
                    (files w))
    end.
Proof.
  unfold create_block_letter_s, bind, lift.
  destruct (draw_block_letter height width letter font_size_ratio) as [e|img];
    [reflexivity|].
  unfold value_range, normalized_array. cbn [data].
  destruct (im_data img) as [|b bs]; reflexivity.
Qed.

(** An image with pixels. *)
Lemma im_data_nonempty (img : image) (n : Z) :
  length (im_data img) = Z.to_nat n -> (0 < n)%Z -> im_data img <> [].
Proof. intros Hlen Hn Hnil. rewrite Hnil in Hlen. cbn in Hlen. lia. Qed.


Lemma bitmap_pillow_contract (default_font : bool) :
  pillow_contract (bitmap_pillow default_font).
Proof.
  split; cbn.
  - intros path size e H. inversion H. left. reflexivity.
  - intros xy text f e H. discriminate H.
  - eauto.
  - eauto.
  - eauto.
Qed.



(** Whenever the image is drawn, it has the requested size. *)
Lemma draw_block_letter_size {P : Pillow} (height width : Z) (letter : string)
    (font_size_ratio : float) (img : image) :
  draw_block_letter height width letter font_size_ratio = inr img ->
  (0 <= width)%Z /\ (0 <= height)%Z /\
  im_width img = width /\ im_height img = height /\
  length (im_data img) = Z.to_nat (width * height).
Proof.
  unfold draw_block_letter. intros H.
  destruct (Image_new width height xff) as [|img0] eqn:Hnew; [discriminate|].
  destruct (Image_new_inr _ _ _ _ Hnew) as (Hw & Hh & ->). cbn [ebind] in H.
  split; [lia|]. split; [lia|].
  destruct (int_mul _ _) as [|size]; [discriminate|]. cbn [ebind] in H.
  destruct (try_font_paths _ _) as [|found]; [discriminate|]. cbn [ebind] in H.
  destruct (measure_text _ _ _ _) as [|extent]; [discriminate|]. cbn [ebind] in H.
  destruct (letter_calls _ _ _ _ _) as [|calls]; [discriminate|]. cbn [ebind] in H.
  apply perform_all_same_size in H. destruct H as (-> & -> & ->). cbn.
  rewrite length_replicate. auto.
Qed.




(** [int(0 * x)] is 0, or the [ValueError] of [int(nan)]. *)
Lemma int_mul_zero (x : float) :
  int_mul 0 x = inr 0%Z \/ exists msg, int_mul 0 x = inl (ValueError msg).
Proof.
  unfold int_mul. cbn [binary_normalize].
  destruct (Prim2SF x) as [s|s| |s m e]; cbn; eauto.
Qed.

(** C3.  For every height or width that is not above zero
    [create_block_letter_s] fails, and leaves the state as it was.  The
    function has no check of its own, and which exception it is depends on
    what fails first: a negative height or width is rejected by
    [Image.new] with a [ValueError], before anything is drawn; with none
    negative, a height or width of 2^31 or more is an [OverflowError] of
    [Image.new], and below that a width above [max_line] a [MemoryError];
    with a height below 2^31 and a width that [Image.new] accepts, on a
    Pillow that keeps the contract, a height or width of zero ends in a
    [ValueError], of the font size zero or of the value range of an array
    with no element. *)
Theorem block_letter_rejects_nonpositive {P : Pillow} (height width : Z)
    (letter : string) (font_size_ratio : float) (w : world) :
  (height <= 0 \/ width <= 0)%Z ->
  (exists e, create_block_letter_s height width letter font_size_ratio w = (inl e, w)) /\
  ((height < 0 \/ width < 0)%Z ->
   create_block_letter_s height width letter font_size_ratio w =
     (inl (ValueError "Width and height must be >= 0"), w)) /\
  ((0 <= height)%Z -> (0 <= width)%Z -> (2 ^ 31 <= height \/ 2 ^ 31 <= width)%Z ->
   exists msg, create_block_letter_s height width letter font_size_ratio w =
                 (inl (OverflowError msg), w)) /\
  ((0 <= height < 2 ^ 31)%Z -> (max_line < width < 2 ^ 31)%Z ->
   create_block_letter_s height width letter font_size_ratio w = (inl MemoryError, w)) /\
  (pillow_contract P -> (height < 2 ^ 31)%Z -> (width <= max_line)%Z ->
   exists msg, create_block_letter_s height width letter font_size_ratio w =
                 (inl (ValueError msg), w)).
Proof.
  intros Hdim.
  assert (Hempty : forall img,
            draw_block_letter height width letter font_size_ratio = inr img ->
            im_data img = []).
  { intros img Himg.
    destruct (draw_block_letter_size _ _ _ _ _ Himg) as (Hw0 & Hh0 & _ & _ & Hlen).
    apply length_zero_iff_nil. rewrite Hlen. nia. }
  assert (Hneg : (height < 0 \/ width < 0)%Z ->
                 create_block_letter_s height width letter font_size_ratio w =
                   (inl (ValueError "Width and height must be >= 0"), w)).
  { intros H. rewrite create_block_letter_s_run. unfold draw_block_letter.
    rewrite Image_new_negative by tauto. reflexivity. }
  split; [|split; [exact Hneg|split; [|split]]].
  - rewrite create_block_letter_s_run.
    destruct (draw_block_letter height width letter font_size_ratio) as [e|img] eqn:Himg;
      [eauto|].
    rewrite bool_decide_eq_true_2 by (apply Hempty; reflexivity). eauto.
  - intros Hh Hw Hbig. rewrite create_block_letter_s_run. unfold draw_block_letter.
    destruct (Image_new_overflow width height xff Hw Hh) as [msg ->]; [tauto|].
    exists msg. reflexivity.
  - intros Hh Hw. rewrite create_block_letter_s_run. unfold draw_block_letter.
    rewrite Image_new_memory by assumption. reflexivity.
  - intros HP Hh Hw.
    destruct (decide (height < 0 \/ width < 0)%Z) as [Hn|Hn]; [eauto|].
    assert (Hmin : Z.min height width = 0%Z) by lia.
    rewrite create_block_letter_s_run.
    destruct (int_mul_zero font_size_ratio) as [Hsize|[msg Hsize]].
    + destruct (try_font_paths_sizeless HP font_paths 0) as [[found Hf]|[msg Hf]].
      * destruct (draw_block_letter_found HP height width letter font_size_ratio
                    0 found) as (img & Himg & _); [lia|lia|rewrite Hmin; exact Hsize|exact Hf|].
        rewrite Himg, bool_decide_eq_true_2 by (apply Hempty; exact Himg). eauto.
      * unfold draw_block_letter. rewrite Image_new_fits by lia. cbn [ebind].
        rewrite Hmin, Hsize. cbn [ebind]. rewrite Hf. cbn [ebind]. eauto.
    + unfold draw_block_letter. rewrite Image_new_fits by lia. cbn [ebind].
      rewrite Hmin, Hsize. cbn [ebind]. eauto.
Qed.

Lemma block_letter_rejects_nonpositive_witness :
  (exists e, create_block_letter_s (P := strict_size_pillow) 0 10 "S" 0.9%float
               empty_world = (inl e, empty_world)) /\
  ((0 < 0 \/ 10 < 0)%Z ->
   create_block_letter_s (P := strict_size_pillow) 0 10 "S" 0.9%float empty_world =
     (inl (ValueError "Width and height must be >= 0"), empty_world)) /\
  ((0 <= 0)%Z -> (0 <= 10)%Z -> (2 ^ 31 <= 0 \/ 2 ^ 31 <= 10)%Z ->
   exists msg, create_block_letter_s (P := strict_size_pillow) 0 10 "S" 0.9%float
                 empty_world = (inl (OverflowError msg), empty_world)) /\
  ((0 <= 0 < 2 ^ 31)%Z -> (max_line < 10 < 2 ^ 31)%Z ->
   create_block_letter_s (P := strict_size_pillow) 0 10 "S" 0.9%float empty_world =
     (inl MemoryError, empty_world)) /\
  (pillow_contract strict_size_pillow -> (0 < 2 ^ 31)%Z -> (10 <= max_line)%Z ->
   exists msg, create_block_letter_s (P := strict_size_pillow) 0 10 "S" 0.9%float
                 empty_world = (inl (ValueError msg), empty_world)).
Proof.
  apply (block_letter_rejects_nonpositive (P := strict_size_pillow) 0 10 "S"
           0.9%float empty_world).
  left. lia.
Defined.

(** A call with a height of zero does not always fail with the same kind
    of exception: with a width of 2^31 it is the [OverflowError] of
    [Image.new], not a [ValueError]. *)
Lemma block_letter_zero_overflow :
  (exists msg,
     create_block_letter_s (P := strict_size_pillow) 0 (2 ^ 31) "S" 0.9%float
       empty_world = (inl (OverflowError msg), empty_world)) /\
  (forall msg,
     create_block_letter_s (P := strict_size_pillow) 0 (2 ^ 31) "S" 0.9%float
       empty_world <> (inl (ValueError msg), empty_world)).
Proof. split; [eexists|intros msg]; vm_compute; [reflexivity|discriminate]. Qed.

(** The two calls of the specification's test: on a Pillow that refuses a
    font size of zero, and on one that does not. *)
Example block_letter_0_10_strict :
  create_block_letter_s (P := strict_size_pillow) 0 10 "S" 0.9%float empty_world =
    (inl (ValueError "font size must be greater than 0"), empty_world).
Proof. vm_compute. reflexivity. Qed.

Example block_letter_0_10 :
  create_block_letter_s (P := raster_pillow true) 0 10 "S" 0.9%float empty_world =
    (inl (ValueError
            "zero-size array to reduction operation minimum which has no identity"),
     empty_world).
Proof. vm_compute. reflexivity. Qed.

Example block_letter_10_minus_1 :
  create_block_letter_s (P := raster_pillow true) 10 (-1) "S" 0.9%float empty_world =
    (inl (ValueError "Width and height must be >= 0"), empty_world).
Proof. vm_compute. reflexivity. Qed.

(** A pixel of a painted blank image. *)
Lemma pixel_paint_blank (p : painter) (width height px py : Z) (color : byte) :
  (0 <= px < width)%Z -> (0 <= py < height)%Z ->
  pixel (paint p (mk_image width height (replicate (Z.to_nat (width * height)) color)))
        px py = Some (p px py color).
Proof.
  intros Hx Hy. unfold pixel, paint. cbn [im_width im_height im_data].
  rewrite bool_decide_eq_true_2 by lia.
  rewrite list_lookup_imap, lookup_replicate_2 by nia. cbn.
  rewrite Z2Nat.id by nia.
  replace (py * width + px)%Z with (px + py * width)%Z by lia.
  rewrite Z.mod_add, Z.div_add, Z.mod_small, Z.div_small by lia.
  reflexivity.
Qed.

Lemma pixel_in_range (img : image) (px py : Z) (b : byte) :
  pixel img px py = Some b ->
  (0 <= px < im_width img)%Z /\ (0 <= py < im_height img)%Z.
Proof. unfold pixel. case_bool_decide; [tauto|discriminate]. Qed.

(** The stand-in with the bitmap font inks inside the bounding box. *)
Lemma glyph_painter_ink (x0 y0 px py : Z) (fill old : byte) :
  glyph_painter x0 y0 fill px py old <> old ->
  (x0 + 1 <= px < x0 + 6 /\ y0 + 2 <= py < y0 + 9)%Z.
Proof.
  unfold glyph_painter. cbn zeta.
  case_bool_decide as Hpos; cbn [andb]; [|congruence].
  destruct (glyph_rows !! Z.to_nat (py - (y0 + 2))) as [row|] eqn:Hrow;
    cbn [mbind option_bind default]; [|congruence].
  destruct (row !! Z.to_nat (px - (x0 + 1))) as [b|] eqn:Hb;
    cbn [default]; [|congruence].
  intros _.
  assert (Hr : (Z.to_nat (py - (y0 + 2)) < 7)%nat)
    by (apply lookup_lt_Some in Hrow; exact Hrow).
  assert (Hc : (Z.to_nat (px - (x0 + 1)) < 5)%nat).
  { apply lookup_lt_Some in Hb.
    assert (Hlen : length row = 5%nat); [|lia].
    apply list_elem_of_lookup_2 in Hrow. unfold glyph_rows in Hrow.
    repeat (apply elem_of_cons in Hrow as [->|Hrow]; [reflexivity|]).
    apply elem_of_nil in Hrow. contradiction. }
  lia.
Qed.

Lemma bitmap_pillow_ink (default_font : bool) : ink_within_bbox (bitmap_pillow default_font).
Proof.
  intros xy text fill f x0 y0 x1 y1 p Hbox Hp px py old Hink.
  cbn in Hbox, Hp. inversion Hbox; subst. inversion Hp; subst.
  apply glyph_painter_ink in Hink. lia.
Qed.

(** C8.  [create_block_letter_s] passes to [draw.text] the offsets
    [x = (W - textW) // 2], [y = (H - textH) // 2] (floor division), textW
    and textH being the width and height of the measured bounding box (or
    what [textsize] answers where [textbbox] is missing).  That does not
    center the glyph: the bounding box (x0, y0, x1, y1) is measured from
    the origin of the text, the ink lands in the box moved by (x, y), and
    the difference of its right and left margins is, up to the parity,
    [- 2 * x0], the difference of its bottom and top margins [- 2 * y0]:
    the glyph is off center by the origin (x0, y0) of its box.  With no
    font at all the code takes [textW = int(W * 0.6)] and
    [textH = int(H * 0.8)] and draws the geometric shape, two arcs and a
    rectangle, whose place does not depend on them. *)
Theorem glyph_centering {P : Pillow} (height width : Z) (letter : string)
    (font_size_ratio : float) (img0 : image) (size : Z) (found : option font) :
  ink_within_bbox P ->
  Image_new width height xff = inr img0 ->
  int_mul (Z.min height width) font_size_ratio = inr size ->
  try_font_paths font_paths size = inr found ->
  (forall f x0 y0 x1 y1,
     or_default_font found = Some f ->
     ImageDraw_textbbox (0, 0)%Z letter f = inr (x0, y0, x1, y1) ->
     let x := ((width - (x1 - x0)) / 2)%Z in
     let y := ((height - (y1 - y0)) / 2)%Z in
     draw_block_letter height width letter font_size_ratio =
       perform (DrawText (x, y) letter x00 f) img0 /\
     (forall img px py b,
        draw_block_letter height width letter font_size_ratio = inr img ->
        pixel img px py = Some b -> b <> xff ->
        (x + x0 <= px < x + x1 /\ y + y0 <= py < y + y1)%Z) /\
     ((width - (x + x1)) - (x + x0) = (width - (x1 - x0)) mod 2 - 2 * x0)%Z /\
     ((height - (y + y1)) - (y + y0) = (height - (y1 - y0)) mod 2 - 2 * y0)%Z) /\
  (forall f e text_width text_height,
     or_default_font found = Some f ->
     ImageDraw_textbbox (0, 0)%Z letter f = inl e -> is_AttributeError e = true ->
     ImageDraw_textsize letter f = inr (text_width, text_height) ->
     draw_block_letter height width letter font_size_ratio =
       perform (DrawText ((width - text_width) / 2, (height - text_height) / 2)%Z
                         letter x00 f) img0) /\
  (or_default_font found = None ->
   exists text_width text_height s_width s_height : Z,
     int_mul width 0.6%float = inr text_width /\
     int_mul height 0.8%float = inr text_height /\
     measure_text None letter height width = inr (text_width, text_height) /\
     int_mul width 0.5%float = inr s_width /\
     int_mul height 0.7%float = inr s_height /\
     let s_x := ((width - s_width) / 2)%Z in
     let s_y := ((height - s_height) / 2)%Z in
     let thickness := Z.max 10 (Z.min width height / 20) in
     draw_block_letter height width letter font_size_ratio =
       perform_all
         [ DrawArc (s_x, s_y, s_x + s_width, s_y + s_height / 3)%Z 90 270 x00 thickness;
           DrawArc (s_x, s_y + 2 * s_height / 3, s_x + s_width, s_y + s_height)%Z
                   270 90 x00 thickness;
           DrawRectangle (s_x + s_width / 2 - thickness / 2, s_y + s_height / 4,
                          s_x + s_width / 2 + thickness / 2,
                          s_y + 3 * s_height / 4)%Z x00 ]
         img0).
Proof.
  intros Hink Himg Hsize Hfound.
  destruct (Image_new_inr _ _ _ _ Himg) as (Hw & Hh & Himg0).
  rewrite max_line_eq in Hw.
  assert (Hone : forall c, perform_all [c] img0 = perform c img0).
  { intros c. cbn. destruct (perform c img0); reflexivity. }
  split; [|split].
  - intros f x0 y0 x1 y1 Hf Hbox x y.
    assert (Hm : measure_text (Some f) letter height width = inr (x1 - x0, y1 - y0)%Z)
      by (unfold measure_text; rewrite Hbox; reflexivity).
    assert (Hdraw : draw_block_letter height width letter font_size_ratio =
                    perform (DrawText (x, y) letter x00 f) img0).
    { unfold draw_block_letter. rewrite Himg. cbn [ebind]. rewrite Hsize. cbn [ebind].
      rewrite Hfound. cbn [ebind].
      rewrite Hf, Hm. cbn [ebind letter_calls]. apply Hone. }
    split; [exact Hdraw|]. split; [|split].
    + intros img px py b Himg' Hpx Hb. rewrite Hdraw in Himg'.
      unfold perform in Himg'.
      destruct (ImageDraw_text (x, y) letter x00 f) as [|p] eqn:Hp; [discriminate|].
      cbn [ebind] in Himg'. injection Himg' as <-.
      destruct (pixel_in_range _ _ _ _ Hpx) as [Hrx Hry].
      rewrite Himg0 in Hpx, Hrx, Hry. cbn [paint im_width im_height] in Hrx, Hry.
      rewrite pixel_paint_blank in Hpx by assumption. injection Hpx as <-.
      exact (Hink (x, y) letter x00 f x0 y0 x1 y1 p Hbox Hp px py xff Hb).
    + unfold x. pose proof (Z.div_mod (width - (x1 - x0)) 2 ltac:(lia)). lia.
    + unfold y. pose proof (Z.div_mod (height - (y1 - y0)) 2 ltac:(lia)). lia.
  - intros f e tw th Hf Hbox He Hts.
    unfold draw_block_letter. rewrite Himg. cbn [ebind]. rewrite Hsize. cbn [ebind].
    rewrite Hfound. cbn [ebind].
    rewrite Hf. unfold measure_text. rewrite Hbox, He, Hts.
    cbn [ebind letter_calls]. apply Hone.
  - intros Hf.
    destruct (int_mul_defined width 0.6%float) as [tw Htw]; [lia|reflexivity..|].
    destruct (int_mul_defined height 0.8%float) as [th Hth]; [lia|reflexivity..|].
    destruct (int_mul_defined width 0.5%float) as [sw Hsw]; [lia|reflexivity..|].
    destruct (int_mul_defined height 0.7%float) as [sh Hsh]; [lia|reflexivity..|].
    exists tw, th, sw, sh.
    assert (Hm : measure_text None letter height width = inr (tw, th))
      by (unfold measure_text; rewrite Htw, Hth; reflexivity).
    repeat (split; [assumption|]).
    unfold draw_block_letter. rewrite Himg. cbn [ebind]. rewrite Hsize. cbn [ebind].
    rewrite Hfound. cbn [ebind].
    rewrite Hf, Hm. cbn [ebind letter_calls]. unfold fallback_calls.
    rewrite Hsw, Hsh. reflexivity.
Qed.

Lemma glyph_centering_witness :
  (draw_block_letter (P := bitmap_pillow true) 100 100 "S" 0.9%float =
     perform (@DrawText (bitmap_pillow true) (47, 46)%Z "S" x00 tt) blank_100 /\
   (forall img px py b,
      draw_block_letter (P := bitmap_pillow true) 100 100 "S" 0.9%float = inr img ->
      pixel img px py = Some b -> b <> xff ->
      (47 + 0 <= px < 47 + 6 /\ 46 + 2 <= py < 46 + 10)%Z) /\
   ((100 - (47 + 6)) - (47 + 0) = (100 - (6 - 0)) mod 2 - 2 * 0)%Z /\
   ((100 - (46 + 10)) - (46 + 2) = (100 - (10 - 2)) mod 2 - 2 * 2)%Z) /\
  (exists text_width text_height s_width s_height : Z,
     int_mul 100 0.6%float = inr text_width /\
     int_mul 100 0.8%float = inr text_height /\
     measure_text (P := bitmap_pillow false) None "S" 100 100 =
       inr (text_width, text_height) /\
     int_mul 100 0.5%float = inr s_width /\
     int_mul 100 0.7%float = inr s_height /\
     draw_block_letter (P := bitmap_pillow false) 100 100 "S" 0.9%float =
       perform_all
         [ @DrawArc (bitmap_pillow false)
             ((100 - s_width) / 2, (100 - s_height) / 2,
              (100 - s_width) / 2 + s_width,
              (100 - s_height) / 2 + s_height / 3)%Z 90 270 x00
             (Z.max 10 (Z.min 100 100 / 20));
           DrawArc ((100 - s_width) / 2, (100 - s_height) / 2 + 2 * s_height / 3,
                    (100 - s_width) / 2 + s_width,
                    (100 - s_height) / 2 + s_height)%Z 270 90 x00
                   (Z.max 10 (Z.min 100 100 / 20));
           DrawRectangle
             ((100 - s_width) / 2 + s_width / 2 - Z.max 10 (Z.min 100 100 / 20) / 2,
              (100 - s_height) / 2 + s_height / 4,
              (100 - s_width) / 2 + s_width / 2 + Z.max 10 (Z.min 100 100 / 20) / 2,
              (100 - s_height) / 2 + 3 * s_height / 4)%Z x00 ]
         blank_100).
Proof.
  assert (Hsize : int_mul (Z.min 100 100) 0.9%float = inr 90%Z)
    by (vm_compute; reflexivity).
  split.
  - destruct (glyph_centering (P := bitmap_pillow true) 100 100 "S" 0.9%float
                blank_100 90 None (bitmap_pillow_ink true) eq_refl Hsize eq_refl)
      as [Hfont _].
    exact (Hfont tt 0%Z 2%Z 6%Z 10%Z eq_refl eq_refl).
  - destruct (glyph_centering (P := bitmap_pillow false) 100 100 "S" 0.9%float
                blank_100 90 None (bitmap_pillow_ink false) eq_refl Hsize eq_refl)
      as (_ & _ & Hnone).
    exact (Hnone eq_refl).
Defined.

(** The letter S of the built-in bitmap font on the 100 x 100 canvas, on
    the stand-in: the text is drawn at (47, 46), its ink begins in row 48
    and ends in row 54; 48 rows above it are blank and 45 rows below. *)
Example glyph_off_center_100 :
  draw_block_letter (P := bitmap_pillow true) 100 100 "S" 0.9%float =
    inr (paint (glyph_painter 47 46 x00) blank_100) /\
  pixel (paint (glyph_painter 47 46 x00) blank_100) 49 48 = Some x00 /\
  pixel (paint (glyph_painter 47 46 x00) blank_100) 49 54 = Some x00 /\
  (forall px py b,
     pixel (paint (glyph_painter 47 46 x00) blank_100) px py = Some b -> b <> xff ->
     (48 <= py <= 54)%Z).
Proof.
  split; [|split; [|split]].
  - unfold draw_block_letter. rewrite Image_new_fits by (rewrite ?max_line_eq; lia).
    cbn [ebind].
    assert (Hsize : int_mul (Z.min 100 100) 0.9%float = inr 90%Z)
      by (vm_compute; reflexivity).
    rewrite Hsize. cbn [ebind]. reflexivity.
  - unfold blank_100. rewrite pixel_paint_blank by lia. vm_compute. reflexivity.
  - unfold blank_100. rewrite pixel_paint_blank by lia. vm_compute. reflexivity.
  - intros px py b Hpx Hb.
    destruct (pixel_in_range _ _ _ _ Hpx) as [Hrx Hry].
    cbn [paint blank_100 im_width im_height] in Hrx, Hry.
    unfold blank_100 in Hpx. rewrite pixel_paint_blank in Hpx by assumption.
    injection Hpx as <-. apply glyph_painter_ink in Hb. lia.
Qed.

(** The proportional fallback on the scenario's canvas: textW = 60,
    textH = 80, offsets (20, 10). *)
Example fallback_extent_100 :
  measure_text (P := raster_pillow false) None "S" 100 100 = inr (60, 80)%Z /\
  center_offsets 100 100 60 80 = (20, 10)%Z.
Proof. split; vm_compute; reflexivity. Qed.

(** For every width and height up to 4096 the truncated products are the
    floors of three fifths of the width and four fifths of the height. *)
Lemma proportional_fallback_floor (n : Z) :
  (0 <= n <= 4096)%Z ->
  int_mul n 0.6%float = inr (3 * n / 5)%Z /\ int_mul n 0.8%float = inr (4 * n / 5)%Z.
Proof.
  intros Hn.
  assert (Hall : forallb (fun k : nat =>
            match int_mul (Z.of_nat k) 0.6%float, int_mul (Z.of_nat k) 0.8%float with
            | inr a, inr b =>
                (a =? 3 * Z.of_nat k / 5)%Z && (b =? 4 * Z.of_nat k / 5)%Z
            | _, _ => false
            end) (seq 0 4097) = true) by (vm_compute; reflexivity).
  rewrite forallb_forall in Hall.
  specialize (Hall (Z.to_nat n)). rewrite Z2Nat.id in Hall by lia.
  assert (Hin : In (Z.to_nat n) (seq 0 4097)) by (apply in_seq; lia).
  apply Hall in Hin.
  destruct (int_mul n 0.6%float) as [|a]; [discriminate|].
  destruct (int_mul n 0.8%float) as [|b]; [discriminate|].
  apply andb_prop in Hin as [Ha Hb].
  apply Z.eqb_eq in Ha, Hb. subst. auto.
Qed.

(** With the stand-in's built-in font the letter is stamped at (47, 44) on
    the 100 x 100 canvas: the cell is 6 x 11. *)
Lemma stamped_offsets_100 :
  draw_block_letter (P := raster_pillow true) 100 100 "S" 0.9%float =
    inr (paint (glyph_painter 47 44 x00) blank_100).
Proof.
  unfold draw_block_letter.
  rewrite Image_new_fits by (rewrite ?max_line_eq; lia). cbn [ebind].
  assert (Hsize : int_mul (Z.min 100 100) 0.9%float = inr 90%Z)
    by (vm_compute; reflexivity).
  rewrite Hsize. cbn [ebind]. reflexivity.
Qed.

(** ** The end-to-end scenario *)

(** The value a pixel is converted into. *)
Lemma pixel_value (b : byte) :
  (float32_div (float_of_byte b) 255 <? 0.5)%float = (Byte.to_N b <? 128)%N /\
  (float32_div (float_of_byte b) 255 =? 1)%float = (Byte.to_N b =? 255)%N /\
  (float32_div (float_of_byte b) 255 =? 0)%float = (Byte.to_N b =? 0)%N.
Proof. destruct b; vm_compute; repeat split; reflexivity. Qed.










Lemma raster_mask_100_produced :
  observe (create_block_letter_s (P := raster_pillow true) 100 100 "S" 0.9%float
             empty_world) = inr (Some raster_mask_100).
Proof.
  rewrite create_block_letter_s_run, stamped_offsets_100.
  rewrite bool_decide_eq_false_2.
  - cbn. rewrite lookup_insert_eq. reflexivity.
  - apply (im_data_nonempty _ (100 * 100)); [|lia].
    unfold paint, blank_100. cbn [im_data im_width im_height].
    rewrite length_imap, length_replicate. reflexivity.
Qed.

(** A pixel of that mask, from the pixel of the blank image it is painted
    over. *)
Lemma raster_mask_100_lookup (k : nat) :
  (k < Z.to_nat (100 * 100))%nat ->
  data raster_mask_100 !! k =
    Some (float32_div
            (float_of_byte
               (glyph_painter 47 44 x00 (Z.of_nat k mod 100)%Z (Z.of_nat k / 100)%Z xff))
            255).
Proof.
  intros Hk. unfold raster_mask_100, normalized_array, paint, blank_100.
  cbn [data im_data im_width im_height].
  rewrite list_lookup_fmap, list_lookup_imap, lookup_replicate_2 by exact Hk.
  reflexivity.
Qed.

(** * Further properties of the code *)

(** ** The order of floats *)

Section FloatOrder.

Ltac order_cases :=
  repeat match goal with
  | H : context [Z.compare ?a ?b] |- _ => destruct (Z.compare_spec a b)
  | |- context [Z.compare ?a ?b] => destruct (Z.compare_spec a b)
  | H : context [Pos.compare_cont Eq ?a ?b] |- _ =>
      change (Pos.compare_cont Eq a b) with (Pos.compare a b) in H
  | |- context [Pos.compare_cont Eq ?a ?b] =>
      change (Pos.compare_cont Eq a b) with (Pos.compare a b)
  | H : context [Pos.compare ?a ?b] |- _ => destruct (Pos.compare_spec a b)
  | |- context [Pos.compare ?a ?b] => destruct (Pos.compare_spec a b)
  end.

Lemma SFltb_leb_trans (a b c : spec_float) :
  SFltb a b = true -> SFleb b c = true -> SFltb a c = true.
Proof.
  unfold SFltb, SFleb, SFcompare.
  destruct a as [[]|[]| |[] ma ea], b as [[]|[]| |[] mb eb], c as [[]|[]| |[] mc ec];
    try discriminate; try reflexivity;
    intros H1 H2; order_cases; cbn in *;
    try discriminate; try reflexivity; try lia.
Qed.

Lemma SFleb_ltb_trans (a b c : spec_float) :
  SFleb a b = true -> SFltb b c = true -> SFltb a c = true.
Proof.
  unfold SFltb, SFleb, SFcompare.
  destruct a as [[]|[]| |[] ma ea], b as [[]|[]| |[] mb eb], c as [[]|[]| |[] mc ec];
    try discriminate; try reflexivity;
    intros H1 H2; order_cases; cbn in *;
    try discriminate; try reflexivity; try lia.
Qed.

Lemma SFltb_asym (a b : spec_float) : SFltb a b = true -> SFleb b a = false.
Proof.
  unfold SFltb, SFleb, SFcompare.
  destruct a as [[]|[]| |[] ma ea], b as [[]|[]| |[] mb eb];
    try discriminate; try reflexivity;
    intros H1; order_cases; cbn in *;
    try discriminate; try reflexivity; try lia.
Qed.

End FloatOrder.

Lemma float_ltb_leb_trans (x y z : float) :
  (x <? y)%float = true -> (y <=? z)%float = true -> (x <? z)%float = true.
Proof. rewrite !ltb_spec, leb_spec. apply SFltb_leb_trans. Qed.

Lemma float_leb_ltb_trans (x y z : float) :
  (x <=? y)%float = true -> (y <? z)%float = true -> (x <? z)%float = true.
Proof. rewrite !ltb_spec, leb_spec. apply SFleb_ltb_trans. Qed.

Lemma float_ltb_asym (x y : float) :
  (x <? y)%float = true -> (y <=? x)%float = false.
Proof. rewrite ltb_spec, leb_spec. apply SFltb_asym. Qed.

Lemma Prim2SF_nan (x : float) : PrimFloat.is_nan x = true -> Prim2SF x = S754_nan.
Proof. intros H. unfold Prim2SF. rewrite H. reflexivity. Qed.

(** No float is below a NaN, and a NaN is below no float. *)
Lemma float_ltb_nan_r (x t : float) :
  PrimFloat.is_nan t = true -> (x <? t)%float = false.
Proof.
  intros H. rewrite ltb_spec, (Prim2SF_nan t H).
  unfold SFltb, SFcompare. destruct (Prim2SF x); reflexivity.
Qed.

Lemma float_ltb_nan_l (x t : float) :
  PrimFloat.is_nan x = true -> (x <? t)%float = false.
Proof. intros H. rewrite ltb_spec, (Prim2SF_nan x H). reflexivity. Qed.

(** ** [create_masked_stipple], continued *)

Lemma ndarray_eta {A} (a : ndarray A) : mk_ndarray (dtype a) (shape a) (data a) = a.
Proof. destruct a. reflexivity. Qed.

Lemma ndarray_eq {A} (a b : ndarray A) :
  dtype a = dtype b -> shape a = shape b -> data a = data b -> a = b.
Proof. destruct a, b. cbn. intros -> -> ->. reflexivity. Qed.

(** Where the mask is nowhere below the threshold the result is the
    sample. *)
Lemma biased_of_nothing_masked (stipple mask : ndarray float) (threshold : float) :
  (forall v, v ∈ data mask -> (v <? as_dtype (dtype mask) threshold)%float = false) ->
  biased_of stipple mask threshold = stipple.
Proof.
  intros Hno. apply ndarray_eq; [reflexivity|reflexivity|].
  apply list_eq. intros k. rewrite biased_of_lookup.
  destruct (data stipple !! k) as [x|]; [|reflexivity]. cbn.
  destruct (data mask !! k) as [v|] eqn:Hv; [|reflexivity]. cbn.
  rewrite (Hno v) by (eapply list_elem_of_lookup_2; exact Hv). reflexivity.
Qed.

(** Where the mask is everywhere below the threshold the result is 1.0
    everywhere. *)
Lemma biased_of_all_masked (stipple mask : ndarray float) (threshold : float) :
  length (data mask) = length (data stipple) ->
  (forall v, v ∈ data mask -> (v <? as_dtype (dtype mask) threshold)%float = true) ->
  data (biased_of stipple mask threshold) = replicate (length (data stipple)) 1%float.
Proof.
  intros Hlen Hall. apply list_eq. intros k. rewrite biased_of_lookup.
  destruct (decide (k < length (data stipple))%nat) as [Hk|Hk].
  - rewrite lookup_replicate_2 by exact Hk.
    destruct (lookup_lt_is_Some_2 (data stipple) k Hk) as [x ->].
    destruct (lookup_lt_is_Some_2 (data mask) k) as [v Hv]; [lia|].
    rewrite Hv. cbn. rewrite (Hall v) by (eapply list_elem_of_lookup_2; exact Hv).
    reflexivity.
  - rewrite (lookup_ge_None_2 (data stipple)) by lia.
    rewrite (proj1 (lookup_replicate_None _ _ _)) by lia. reflexivity.
Qed.

Lemma wf_same_shape_length {A B} (a : ndarray A) (b : ndarray B) :
  wf_ndarray a -> wf_ndarray b -> shape a = shape b ->
  length (data a) = length (data b).
Proof. intros [_ Ha] [_ Hb] Hsh. rewrite Ha, Hb, Hsh. reflexivity. Qed.

(** X1.  A NaN never masks: with a NaN threshold the result is a copy of
    the sample, and at any threshold a cell whose mask value is NaN keeps
    its sample value. *)
Theorem masked_stipple_nan_never_masks (w : world) (stipple_img mask_img : loc)
    (threshold : float) (stipple mask : ndarray float) :
  objects w !! stipple_img = Some stipple ->
  objects w !! mask_img = Some mask ->
  shape stipple = shape mask ->
  exists biased : ndarray float,
    observe (create_masked_stipple stipple_img mask_img threshold w) =
      inr (Some biased) /\
    (PrimFloat.is_nan threshold = true -> biased = stipple) /\
    (forall k v, data mask !! k = Some v -> PrimFloat.is_nan v = true ->
       data biased !! k = data stipple !! k).
Proof.
  intros Hs Hm Hsh. exists (biased_of stipple mask threshold).
  rewrite (observe_create_masked_stipple w _ _ _ stipple mask Hs Hm).
  rewrite bool_decide_eq_false_2 by (intros Hne; apply Hne, Hsh).
  split; [reflexivity|]. split.
  - intros Hnan. apply biased_of_nothing_masked.
    intros v _. apply float_ltb_nan_r, as_dtype_nan, Hnan.
  - intros k v Hv Hnan. rewrite biased_of_lookup, Hv. cbn.
    rewrite (float_ltb_nan_l v _ Hnan).
    destruct (data stipple !! k); reflexivity.
Qed.

Lemma masked_stipple_nan_never_masks_witness :
  exists biased : ndarray float,
    observe (create_masked_stipple 1%positive 2%positive nan world_2x2) =
      inr (Some biased) /\
    (PrimFloat.is_nan nan = true -> biased = sample_2x2) /\
    (forall k v, data mask_2x2 !! k = Some v -> PrimFloat.is_nan v = true ->
       data biased !! k = data sample_2x2 !! k).
Proof.
  apply (masked_stipple_nan_never_masks world_2x2 1%positive 2%positive nan
           sample_2x2 mask_2x2); reflexivity.
Defined.

(** X2.  Raising the threshold only adds to what is masked: masking at t1
    and then, with the same mask, at t2 >= t1 gives the array that masking
    at t2 alone gives, and every cell that is 1.0 after t1 is 1.0 after
    t2. *)
Theorem masked_stipple_threshold_order (w : world) (stipple_img mask_img : loc)
    (t1 t2 : float) (stipple mask : ndarray float) :
  objects w !! stipple_img = Some stipple ->
  objects w !! mask_img = Some mask ->
  shape stipple = shape mask ->
  (t1 <=? t2)%float = true ->
  exists (l1 : loc) (w1 : world) (b1 b2 : ndarray float),
    create_masked_stipple stipple_img mask_img t1 w = (inr l1, w1) /\
    objects w1 !! l1 = Some b1 /\
    observe (create_masked_stipple l1 mask_img t2 w1) = inr (Some b2) /\
    observe (create_masked_stipple stipple_img mask_img t2 w) = inr (Some b2) /\
    (forall k, data b1 !! k = Some 1%float -> data b2 !! k = Some 1%float).
Proof.
  intros Hs Hm Hsh Hle.
  pose proof (create_masked_stipple_frame w stipple_img mask_img t1) as [Hfr _].
  pose proof (Hfr _ _ Hm) as Hm1. clear Hfr.
  rewrite (create_masked_stipple_run w _ _ _ stipple mask Hs Hm) in *.
  rewrite bool_decide_eq_false_2 in * by (intros Hne; apply Hne, Hsh).
  cbn in Hm1. set (w1 := mk_world _ _) in *.
  assert (Hl1 : objects w1 !! fresh (dom (objects w)) = Some (biased_of stipple mask t1))
    by apply lookup_insert_eq.
  assert (Hcomp : biased_of (biased_of stipple mask t1) mask t2 =
                  biased_of stipple mask t2).
  { apply ndarray_eq; [reflexivity|reflexivity|]. apply list_eq. intros k.
    rewrite !biased_of_lookup.
    destruct (data stipple !! k) as [x|]; [|reflexivity]. cbn.
    destruct (data mask !! k) as [v|]; [|reflexivity]. cbn.
    destruct (v <? as_dtype (dtype mask) t1)%float eqn:H1; [|reflexivity].
    rewrite (float_ltb_leb_trans v _ _ H1 (as_dtype_mono (dtype mask) t1 t2 Hle)).
    reflexivity. }
  eexists _, w1, (biased_of stipple mask t1), (biased_of stipple mask t2).
  split; [reflexivity|]. split; [exact Hl1|]. split; [|split].
  - rewrite (observe_create_masked_stipple w1 _ _ _ _ mask Hl1 Hm1).
    rewrite bool_decide_eq_false_2
      by (intros Hne; apply Hne; rewrite biased_of_shape; exact Hsh).
    rewrite Hcomp. reflexivity.
  - rewrite (observe_create_masked_stipple w _ _ _ stipple mask Hs Hm).
    rewrite bool_decide_eq_false_2 by (intros Hne; apply Hne, Hsh). reflexivity.
  - intros k. rewrite <- Hcomp, (biased_of_lookup (biased_of stipple mask t1)).
    intros ->. cbn. destruct (default false _); reflexivity.
Qed.

Lemma masked_stipple_threshold_order_witness :
  exists (l1 : loc) (w1 : world) (b1 b2 : ndarray float),
    create_masked_stipple 1%positive 2%positive 0.5%float world_2x2 = (inr l1, w1) /\
    objects w1 !! l1 = Some b1 /\
    observe (create_masked_stipple l1 2%positive 0.75%float w1) = inr (Some b2) /\
    observe (create_masked_stipple 1%positive 2%positive 0.75%float world_2x2) =
      inr (Some b2) /\
    (forall k, data b1 !! k = Some 1%float -> data b2 !! k = Some 1%float).
Proof.
  apply (masked_stipple_threshold_order world_2x2 1%positive 2%positive
           0.5%float 0.75%float sample_2x2 mask_2x2); reflexivity.
Defined.

(** Two calls in a row, the second on the result of the first. *)
Lemma masked_twice_observe (w : world) (stipple_img mask_a mask_b : loc)
    (ta tb : float) (stipple ma mb : ndarray float) :
  objects w !! stipple_img = Some stipple ->
  objects w !! mask_a = Some ma ->
  objects w !! mask_b = Some mb ->
  shape stipple = shape ma -> shape stipple = shape mb ->
  observe ((l <- create_masked_stipple stipple_img mask_a ta ;;
            create_masked_stipple l mask_b tb) w) =
    inr (Some (biased_of (biased_of stipple ma ta) mb tb)).
Proof.
  intros Hs Ha Hb Hsa Hsb.
  pose proof (create_masked_stipple_frame w stipple_img mask_a ta) as [Hfr _].
  pose proof (Hfr _ _ Hb) as Hb1. clear Hfr.
  unfold bind.
  rewrite (create_masked_stipple_run w _ _ _ stipple ma Hs Ha) in *.
  rewrite bool_decide_eq_false_2 in * by (intros Hne; apply Hne, Hsa).
  cbn in Hb1. set (w1 := mk_world _ _) in *.
  assert (Hl1 : objects w1 !! fresh (dom (objects w)) = Some (biased_of stipple ma ta))
    by apply lookup_insert_eq.
  rewrite (observe_create_masked_stipple w1 _ _ _ _ mb Hl1 Hb1).
  rewrite bool_decide_eq_false_2
    by (intros Hne; apply Hne; rewrite biased_of_shape; exact Hsb).
  reflexivity.
Qed.

(** X3.  Two masks can be applied in either order: masking a sample with
    one mask and the result with another gives the same array as the
    other order, in which a cell is 1.0 where either mask is below its
    threshold, each compared at the element type of its mask, and the
    sample value elsewhere. *)
Theorem masked_stipple_masks_commute (w : world) (stipple_img mask_a mask_b : loc)
    (ta tb : float) (stipple ma mb : ndarray float) :
  objects w !! stipple_img = Some stipple ->
  objects w !! mask_a = Some ma ->
  objects w !! mask_b = Some mb ->
  wf_ndarray stipple -> wf_ndarray ma -> wf_ndarray mb ->
  shape stipple = shape ma -> shape stipple = shape mb ->
  exists biased : ndarray float,
    observe ((l <- create_masked_stipple stipple_img mask_a ta ;;
              create_masked_stipple l mask_b tb) w) = inr (Some biased) /\
    observe ((l <- create_masked_stipple stipple_img mask_b tb ;;
              create_masked_stipple l mask_a ta) w) = inr (Some biased) /\
    shape biased = shape stipple /\
    forall k x va vb,
      data stipple !! k = Some x -> data ma !! k = Some va -> data mb !! k = Some vb ->
      data biased !! k =
        Some (if (va <? as_dtype (dtype ma) ta)%float ||
                 (vb <? as_dtype (dtype mb) tb)%float
              then 1%float else x).
Proof.
  intros Hs Ha Hb Hwf Hwfa Hwfb Hsa Hsb.
  exists (biased_of (biased_of stipple ma ta) mb tb).
  rewrite (masked_twice_observe w _ _ _ ta tb stipple ma mb) by assumption.
  rewrite (masked_twice_observe w _ _ _ tb ta stipple mb ma) by assumption.
  split; [reflexivity|]. split; [|split; [reflexivity|]].
  - do 2 f_equal. apply ndarray_eq; [reflexivity|reflexivity|]. apply list_eq. intros k.
    rewrite !biased_of_lookup.
    destruct (data stipple !! k) as [x|]; [|reflexivity]. cbn.
    destruct (default false _), (default false _); reflexivity.
  - intros k x va vb Hx Hva Hvb. rewrite !biased_of_lookup, Hx, Hva, Hvb. cbn.
    destruct (va <? _)%float, (vb <? _)%float; reflexivity.
Qed.

Lemma masked_stipple_masks_commute_witness :
  exists biased : ndarray float,
    observe ((l <- create_masked_stipple 1%positive 2%positive 0.7%float ;;
              create_masked_stipple l 3%positive 0.7%float) world_3_1x2) =
      inr (Some biased) /\
    observe ((l <- create_masked_stipple 1%positive 3%positive 0.7%float ;;
              create_masked_stipple l 2%positive 0.7%float) world_3_1x2) =
      inr (Some biased) /\
    shape biased = shape sample_1x2 /\
    forall k x va vb,
      data sample_1x2 !! k = Some x -> data mask_float32 !! k = Some va ->
      data mask_1x2 !! k = Some vb ->
      data biased !! k =
        Some (if (va <? as_dtype (dtype mask_float32) 0.7)%float ||
                 (vb <? as_dtype (dtype mask_1x2) 0.7)%float
              then 1%float else x).
Proof.
  apply (masked_stipple_masks_commute world_3_1x2 1%positive 2%positive 3%positive
           0.7%float 0.7%float sample_1x2 mask_float32 mask_1x2);
    try reflexivity; (split; [repeat constructor; lia | reflexivity]).
Defined.

(** X4.  Masking keeps an intensity field an intensity field: when every
    value of the sample lies in [0, 1], so does every value of the result,
    which is well formed when the sample is, and holds at each position
    1.0 or the sample's value there. *)
Theorem masked_stipple_keeps_unit_interval (w : world) (stipple_img mask_img : loc)
    (threshold : float) (stipple mask : ndarray float) :
  objects w !! stipple_img = Some stipple ->
  objects w !! mask_img = Some mask ->
  wf_ndarray stipple ->
  shape stipple = shape mask ->
  Forall unit_interval (data stipple) ->
  exists biased : ndarray float,
    observe (create_masked_stipple stipple_img mask_img threshold w) =
      inr (Some biased) /\
    wf_ndarray biased /\
    Forall unit_interval (data biased) /\
    forall k v, data biased !! k = Some v ->
      v = 1%float \/ data stipple !! k = Some v.
Proof.
  intros Hs Hm Hwf Hsh Hall. exists (biased_of stipple mask threshold).
  rewrite (observe_create_masked_stipple w _ _ _ stipple mask Hs Hm).
  rewrite bool_decide_eq_false_2 by (intros Hne; apply Hne, Hsh).
  split; [reflexivity|].
  assert (Hcell : forall k v, data (biased_of stipple mask threshold) !! k = Some v ->
                    v = 1%float \/ data stipple !! k = Some v).
  { intros k v. rewrite biased_of_lookup.
    destruct (data stipple !! k) as [x|]; [|discriminate]. cbn.
    destruct (default false _); intros [= <-]; auto. }
  split; [|split; [|exact Hcell]].
  - destruct Hwf as [Hdims Hlen]. split; [exact Hdims|].
    rewrite biased_of_length, biased_of_shape. exact Hlen.
  - apply Forall_lookup. intros k v Hv.
    destruct (Hcell k v Hv) as [->|Hx].
    + split; reflexivity.
    + exact (proj1 (Forall_lookup _ _) Hall k v Hx).
Qed.

Lemma masked_stipple_keeps_unit_interval_witness :
  exists biased : ndarray float,
    observe (create_masked_stipple 1%positive 2%positive 0.5%float world_2x2) =
      inr (Some biased) /\
    wf_ndarray biased /\
    Forall unit_interval (data biased) /\
    forall k v, data biased !! k = Some v ->
      v = 1%float \/ data sample_2x2 !! k = Some v.
Proof.
  apply (masked_stipple_keeps_unit_interval world_2x2 1%positive 2%positive 0.5%float
           sample_2x2 mask_2x2); try reflexivity.
  - split; [repeat constructor; lia | reflexivity].
  - repeat constructor.
Defined.

(** X5.  On a mask whose values lie in [0, 1], as those of
    [create_block_letter_s] do, a threshold of zero or less masks nothing
    (the result is a copy of the sample), and a threshold that, at the
    element type of the mask, is above one masks everything (the result is
    1.0 everywhere).  For a [float32] mask that is a threshold whose
    [float32] value is above one: 1 + 1e-9 is not. *)
Theorem masked_stipple_threshold_extremes (w : world) (stipple_img mask_img : loc)
    (threshold : float) (stipple mask : ndarray float) :
  objects w !! stipple_img = Some stipple ->
  objects w !! mask_img = Some mask ->
  wf_ndarray stipple -> wf_ndarray mask ->
  shape stipple = shape mask ->
  Forall unit_interval (data mask) ->
  ((threshold <=? 0)%float = true ->
   observe (create_masked_stipple stipple_img mask_img threshold w) =
     inr (Some stipple)) /\
  ((1 <? as_dtype (dtype mask) threshold)%float = true ->
   observe (create_masked_stipple stipple_img mask_img threshold w) =
     inr (Some (mk_ndarray (dtype stipple) (shape stipple)
                  (replicate (length (data stipple)) 1%float)))).
Proof.
  intros Hs Hm Hwfs Hwfm Hsh Hall.
  rewrite (observe_create_masked_stipple w _ _ _ stipple mask Hs Hm).
  rewrite bool_decide_eq_false_2 by (intros Hne; apply Hne, Hsh).
  rewrite Forall_forall in Hall. split.
  - intros Hle. rewrite biased_of_nothing_masked; [reflexivity|].
    intros v Hv. destruct (Hall v Hv) as [H0 _].
    destruct (v <? as_dtype (dtype mask) threshold)%float eqn:Hlt; [|reflexivity].
    pose proof (as_dtype_mono (dtype mask) _ _ Hle) as Hle'.
    rewrite as_dtype_zero in Hle'.
    pose proof (float_ltb_asym _ _ (float_ltb_leb_trans _ _ _ Hlt Hle')). congruence.
  - intros Hgt. do 2 f_equal. apply ndarray_eq; [reflexivity|reflexivity|]. cbn [data].
    apply biased_of_all_masked.
    + symmetry. apply wf_same_shape_length; assumption.
    + intros v Hv. destruct (Hall v Hv) as [_ H1].
      exact (float_leb_ltb_trans _ _ _ H1 Hgt).
Qed.

Lemma masked_stipple_threshold_extremes_witness :
  observe (create_masked_stipple 1%positive 2%positive 0%float world_float32) =
    inr (Some sample_1x2) /\
  observe (create_masked_stipple 1%positive 2%positive 2%float world_float32) =
    inr (Some (mk_ndarray (dtype sample_1x2) (shape sample_1x2)
                 (replicate (length (data sample_1x2)) 1%float))).
Proof.
  assert (Hwfs : wf_ndarray sample_1x2) by (split; [repeat constructor; lia|reflexivity]).
  assert (Hwfm : wf_ndarray mask_float32)
    by (split; [repeat constructor; lia|reflexivity]).
  assert (Hunit : Forall unit_interval (data mask_float32)) by (repeat constructor).
  split.
  - apply (masked_stipple_threshold_extremes world_float32 1%positive 2%positive 0%float
             sample_1x2 mask_float32 eq_refl eq_refl Hwfs Hwfm eq_refl Hunit).
    reflexivity.
  - apply (masked_stipple_threshold_extremes world_float32 1%positive 2%positive 2%float
             sample_1x2 mask_float32 eq_refl eq_refl Hwfs Hwfm eq_refl Hunit).
    reflexivity.
Defined.

(** A threshold just above one is one at [float32]: a cell of a [float32]
    mask that holds 1.0 is not masked by it. *)
Example masked_stipple_threshold_just_above_one :
  (1 <? 1 + 1e-9)%float = true /\
  observe (create_masked_stipple 1%positive 2%positive (1 + 1e-9)%float
             (mk_world (<[2%positive := mk_ndarray np_float32 [1; 2]%Z [1; 0.5]%float]>
                          (<[1%positive := sample_1x2]> ∅)) ∅)) =
    inr (Some (mk_ndarray np_float64 [1; 2]%Z [0; 1]%float)).
Proof. vm_compute. split; reflexivity. Qed.

(** ** The statistics *)

Lemma count_true_cons (b : bool) (bs : list bool) :
  length (filter (fun b => b = true) (b :: bs)) =
  ((if b then 1 else 0) + length (filter (fun b => b = true) bs))%nat.
Proof.
  rewrite filter_cons. destruct b.
  - rewrite decide_True by reflexivity. reflexivity.
  - rewrite decide_False by discriminate. reflexivity.
Qed.

Lemma count_true_le_length (bs : list bool) :
  (length (filter (fun b => b = true) bs) <= length bs)%nat.
Proof.
  induction bs as [|b bs IH]; [reflexivity|].
  rewrite count_true_cons. cbn [length]. destruct b; lia.
Qed.

(** Masking as a zip of the sample with the mask. *)
Lemma biased_of_zip (stipple mask : ndarray float) (threshold : float) :
  length (data mask) = length (data stipple) ->
  data (biased_of stipple mask threshold) =
    zip_with (fun x v => if (v <? as_dtype (dtype mask) threshold)%float
                         then 1%float else x)
             (data stipple) (data mask).
Proof.
  intros Hlen. apply list_eq. intros k.
  rewrite biased_of_lookup, lookup_zip_with.
  destruct (data stipple !! k) as [x|] eqn:Hx; [|reflexivity]. cbn.
  destruct (lookup_lt_is_Some_2 (data mask) k) as [v ->].
  { rewrite Hlen. eapply lookup_lt_is_Some_1. eauto. }
  reflexivity.
Qed.

Lemma stipple_counts (xs vs : list float) (t : float) :
  length xs = length vs ->
  let zero := fun x : float => (x =? 0)%float in
  let below := fun v : float => (v <? t)%float in
  let count := fun bs : list bool => length (filter (fun b => b = true) bs) in
  count (zero <$> xs) =
    (count (zip_with andb (zero <$> xs) (below <$> vs)) +
     count (zero <$> zip_with (fun x v => if below v then 1%float else x) xs vs))%nat /\
  (count (zip_with andb (zero <$> xs) (below <$> vs)) <= count (below <$> vs))%nat.
Proof.
  intros Hlen zero below count. revert vs Hlen.
  induction xs as [|x xs IH]; intros [|v vs] Hlen; try discriminate.
  - split; reflexivity.
  - destruct (IH vs) as [IH1 IH2]; [cbn in Hlen; lia|].
    unfold count in *. cbn [fmap list_fmap zip_with].
    rewrite !count_true_cons.
    assert (H10 : zero 1%float = false) by (vm_compute; reflexivity).
    destruct (zero x) eqn:Hz, (below v) eqn:Hb; cbn [andb];
      rewrite ?H10, ?Hz; split; lia.
Qed.

(** X6.  The counts of the report add up: the stipples before masking are
    the stipples removed plus the stipples left; no more stipples are
    removed than pixels are masked, and no more pixels are masked than
    there are. *)
Theorem masking_statistics_add_up (stipple mask : ndarray float) (threshold : float) :
  wf_ndarray stipple -> wf_ndarray mask -> shape stipple = shape mask ->
  let r := masking_statistics stipple mask threshold in
  stipples_before r = (stipples_removed r + stipples_after r)%nat /\
  (stipples_after r <= stipples_before r)%nat /\
  (stipples_removed r <= masked_pixels r)%nat /\
  (Z.of_nat (masked_pixels r) <= total_pixels r)%Z.
Proof.
  intros Hwfs Hwfm Hsh r.
  assert (Hlen : length (data stipple) = length (data mask))
    by (apply wf_same_shape_length; assumption).
  destruct (stipple_counts (data stipple) (data mask)
              (as_dtype (dtype mask) threshold) Hlen) as [H1 H2].
  unfold r, masking_statistics, count_true, eq_scalar, and_array, lt_scalar.
  cbn [stipples_before stipples_removed stipples_after masked_pixels total_pixels
       data shape dtype].
  rewrite biased_of_dtype, !as_dtype_zero.
  rewrite biased_of_zip by (symmetry; exact Hlen).
  split; [exact H1|]. split; [lia|]. split; [exact H2|].
  pose proof (count_true_le_length
                ((fun x => (x <? as_dtype (dtype mask) threshold)%float) <$> data mask))
    as Hle.
  rewrite length_fmap in Hle. destruct Hwfm as [Hdims Hm].
  rewrite Hsh. rewrite Hm in Hle.
  assert (0 <= size_of_shape (shape mask))%Z.
  { clear -Hdims. unfold size_of_shape.
    induction Hdims as [|d ds Hd _ IH]; cbn [foldr]; [lia|nia]. }
  lia.
Qed.

Lemma masking_statistics_add_up_witness :
  let r := masking_statistics sample_2x2 mask_2x2 0.5%float in
  stipples_before r = (stipples_removed r + stipples_after r)%nat /\
  (stipples_after r <= stipples_before r)%nat /\
  (stipples_removed r <= masked_pixels r)%nat /\
  (Z.of_nat (masked_pixels r) <= total_pixels r)%Z.
Proof.
  apply (masking_statistics_add_up sample_2x2 mask_2x2 0.5%float).
  - split; [repeat constructor; lia | reflexivity].
  - split; [repeat constructor; lia | reflexivity].
  - reflexivity.
Defined.

(** ** [create_block_letter_s], continued *)

(** [int(n * c)] for a non-negative n below 2^53 and a ratio in (0, 1] is
    not negative. *)
Lemma int_mul_nonneg (n : Z) (c : float) :
  (0 <= n < 2 ^ 53)%Z -> (0 <? c)%float = true -> (c <=? 1)%float = true ->
  exists z, int_mul n c = inr z /\ (0 <= z)%Z.
Proof.
  intros Hn Hpos Hle. unfold int_mul.
  destruct (unit_ratio_finite c Hpos Hle) as (mc & ec & -> & Hdc & Hec).
  destruct (binary_normalize_small n Hn) as [->|(m & e & -> & Hd & He)].
  - cbn. exists 0%Z. split; [reflexivity|lia].
  - cbn [SFmul xorb].
    destruct (binary_round_aux_bounded prec emax false (Z.pos (m * mc)) (e + ec)%Z
                loc_Exact 107 (-51)) as [->|(m' & e' & -> & _ & _)].
    + lia.
    + pose proof (Zdigits2_mul m mc). lia.
    + lia.
    + unfold SpecFloat.emin, prec, emax. lia.
    + exists 0%Z. split; [reflexivity|lia].
    + eexists. split; [reflexivity|]. cbn [cond_Zopp].
      apply Z.shiftl_nonneg. lia.
Qed.

(** The font loop: the first path that loads gives the font, when every
    path before it raises [OSError]. *)
Lemma try_font_paths_first {P : Pillow} (paths : list string) (size : Z)
    (k : nat) (path : string) (f : font) :
  paths !! k = Some path ->
  (forall j p, (j < k)%nat -> paths !! j = Some p ->
     exists e, ImageFont_truetype p size = inl e /\ is_OSError e = true) ->
  ImageFont_truetype path size = inr f ->
  try_font_paths paths size = inr (Some f).
Proof.
  revert k. induction paths as [|p paths IH]; intros k Hk Hbefore Hload;
    [discriminate|].
  destruct k as [|k]; cbn in Hk |- *.
  - injection Hk as ->. rewrite Hload. reflexivity.
  - destruct (Hbefore 0%nat p) as (e & -> & ->); [lia|reflexivity|].
    apply (IH k); [exact Hk| |exact Hload].
    intros j q Hj Hq. apply (Hbefore (S j) q); [lia|exact Hq].
Qed.

(** The font loop: an exception that is not an [OSError] ends it. *)
Lemma try_font_paths_raises {P : Pillow} (paths : list string) (size : Z)
    (k : nat) (path : string) (e : exn) :
  paths !! k = Some path ->
  (forall j p, (j < k)%nat -> paths !! j = Some p ->
     exists e', ImageFont_truetype p size = inl e' /\ is_OSError e' = true) ->
  ImageFont_truetype path size = inl e -> is_OSError e = false ->
  try_font_paths paths size = inl e.
Proof.
  revert k. induction paths as [|p paths IH]; intros k Hk Hbefore Hraise He;
    [discriminate|].
  destruct k as [|k]; cbn in Hk |- *.
  - injection Hk as ->. rewrite Hraise, He. reflexivity.
  - destruct (Hbefore 0%nat p) as (e' & -> & ->); [lia|reflexivity|].
    apply (IH k); [exact Hk| |exact Hraise|exact He].
    intros j q Hj Hq. apply (Hbefore (S j) q); [lia|exact Hq].
Qed.

(** X7.  The fonts are tried in the order of the list: when a path loads
    and every path before it raised [OSError], the letter is drawn with
    that font, at the offsets centering its bounding box; the paths after
    it and the default font are not used. *)
Theorem first_loading_font_draws {P : Pillow} (height width : Z) (letter : string)
    (font_size_ratio : float) (size : Z) (k : nat) (path : string) (f : font)
    (x0 y0 x1 y1 : Z) :
  (0 <= height < 2 ^ 31)%Z -> (0 <= width <= max_line)%Z ->
  int_mul (Z.min height width) font_size_ratio = inr size ->
  font_paths !! k = Some path ->
  (forall j p, (j < k)%nat -> font_paths !! j = Some p ->
     exists e, ImageFont_truetype p size = inl e /\ is_OSError e = true) ->
  ImageFont_truetype path size = inr f ->
  ImageDraw_textbbox (0, 0)%Z letter f = inr (x0, y0, x1, y1) ->
  try_font_paths font_paths size = inr (Some f) /\
  draw_block_letter height width letter font_size_ratio =
    perform (DrawText ((width - (x1 - x0)) / 2, (height - (y1 - y0)) / 2)%Z
                      letter x00 f)
            (mk_image width height (replicate (Z.to_nat (width * height)) xff)).
Proof.
  intros Hh Hw Hsize Hk Hbefore Hload Hbox.
  pose proof (try_font_paths_first font_paths size k path f Hk Hbefore Hload) as Hfound.
  split; [exact Hfound|].
  unfold draw_block_letter. rewrite Image_new_fits by assumption. cbn [ebind].
  rewrite Hsize. cbn [ebind]. rewrite Hfound. cbn [ebind or_default_font].
  unfold measure_text. rewrite Hbox. cbn [ebind letter_calls perform_all fst snd].
  destruct (perform _ _); reflexivity.
Qed.

Lemma first_loading_font_draws_witness :
  try_font_paths (P := dejavu_pillow) font_paths 90 =
    inr (Some "/usr/share/fonts/truetype/dejavu/DejaVuSans-Bold.ttf") /\
  draw_block_letter (P := dejavu_pillow) 100 100 "S" 0.9%float =
    perform (@DrawText dejavu_pillow ((100 - (6 - 0)) / 2, (100 - (11 - 0)) / 2)%Z
               "S" x00 "/usr/share/fonts/truetype/dejavu/DejaVuSans-Bold.ttf")
            (mk_image 100 100 (replicate (Z.to_nat (100 * 100)) xff)).
Proof.
  apply (first_loading_font_draws (P := dejavu_pillow) 100 100 "S" 0.9%float 90 4
           "/usr/share/fonts/truetype/dejavu/DejaVuSans-Bold.ttf"
           "/usr/share/fonts/truetype/dejavu/DejaVuSans-Bold.ttf" 0 0 6 11).
  - lia.
  - rewrite max_line_eq. lia.
  - vm_compute. reflexivity.
  - reflexivity.
  - intros j p Hj Hp. exists (OSError "cannot open resource").
    split; [|reflexivity].
    do 4 (destruct j as [|j]; [injection Hp as <-; reflexivity|]). lia.
  - reflexivity.
  - reflexivity.
Defined.

(** X8.  Only [OSError] is caught in the font loop: when a font path
    raises another exception, and every path before it raised [OSError],
    [create_block_letter_s] fails with that exception, draws nothing and
    leaves the state as it was. *)
Theorem unhandled_font_error_propagates {P : Pillow} (height width : Z)
    (letter : string) (font_size_ratio : float) (w : world) (size : Z) (k : nat)
    (path : string) (e : exn) :
  (0 <= height < 2 ^ 31)%Z -> (0 <= width <= max_line)%Z ->
  int_mul (Z.min height width) font_size_ratio = inr size ->
  font_paths !! k = Some path ->
  (forall j p, (j < k)%nat -> font_paths !! j = Some p ->
     exists e', ImageFont_truetype p size = inl e' /\ is_OSError e' = true) ->
  ImageFont_truetype path size = inl e -> is_OSError e = false ->
  create_block_letter_s height width letter font_size_ratio w = (inl e, w).
Proof.
  intros Hh Hw Hsize Hk Hbefore Hraise He.
  rewrite create_block_letter_s_run. unfold draw_block_letter.
  rewrite Image_new_fits by assumption. cbn [ebind].
  rewrite Hsize. cbn [ebind].
  rewrite (try_font_paths_raises font_paths size k path e Hk Hbefore Hraise He).
  reflexivity.
Qed.

Lemma unhandled_font_error_propagates_witness :
  create_block_letter_s (P := strict_size_pillow) 1 1 "S" 0.9%float empty_world =
    (inl (ValueError "font size must be greater than 0"), empty_world).
Proof.
  apply (unhandled_font_error_propagates (P := strict_size_pillow) 1 1 "S" 0.9%float
           empty_world 0 0 "/System/Library/Fonts/Supplemental/Arial Bold.ttf").
  - lia.
  - rewrite max_line_eq. lia.
  - vm_compute. reflexivity.
  - reflexivity.
  - intros j p Hj. lia.
  - reflexivity.
  - reflexivity.
Defined.

(** X10.  Every value of a mask that [create_block_letter_s] returns is
    one of the 256 levels pixel / 255 of an 8-bit pixel: it is below the
    default threshold 0.5 exactly when the pixel is below 128, equal to 1.0
    exactly for the background 255 and equal to 0.0 exactly for the ink
    0. *)
Theorem block_letter_values {P : Pillow} (height width : Z) (letter : string)
    (font_size_ratio : float) (w : world) (a : ndarray float) :
  observe (create_block_letter_s height width letter font_size_ratio w) =
    inr (Some a) ->
  forall v, v ∈ data a ->
    exists b : byte,
      v = float32_div (float_of_byte b) 255 /\
      ((v <? 0.5)%float = true <-> (Byte.to_N b < 128)%N) /\
      ((v =? 1)%float = true <-> Byte.to_N b = 255%N) /\
      ((v =? 0)%float = true <-> Byte.to_N b = 0%N).
Proof.
  rewrite create_block_letter_s_run.
  destruct (draw_block_letter height width letter font_size_ratio) as [e|img];
    [discriminate|].
  case_bool_decide; [discriminate|]. cbn. rewrite lookup_insert_eq.
  intros [= <-] v Hv. unfold normalized_array in Hv. cbn in Hv.
  apply list_elem_of_fmap in Hv as (b & -> & _). exists b.
  destruct (pixel_value b) as (H1 & H2 & H3).
  split; [reflexivity|]. rewrite H1, H2, H3. split; [|split].
  - rewrite N.ltb_lt. reflexivity.
  - rewrite N.eqb_eq. reflexivity.
  - rewrite N.eqb_eq. reflexivity.
Qed.

Lemma block_letter_values_witness :
  exists b : byte,
    1%float = float32_div (float_of_byte b) 255 /\
    ((1 <? 0.5)%float = true <-> (Byte.to_N b < 128)%N) /\
    ((1 =? 1)%float = true <-> Byte.to_N b = 255%N) /\
    ((1 =? 0)%float = true <-> Byte.to_N b = 0%N).
Proof.
  apply (block_letter_values (P := raster_pillow true) 100 100 "S" 0.9%float
           empty_world raster_mask_100 raster_mask_100_produced 1%float).
  apply (list_elem_of_lookup_2 _ 0%nat).
  rewrite raster_mask_100_lookup by lia. vm_compute. reflexivity.
Defined.

(** X11.  The geometric shape is drawn by three calls, two arcs and a
    rectangle, whose boxes have their corners in order (x0 <= x1 and
    y0 <= y1) for every height and width that is not negative, and whose
    arcs are at least 10 pixels wide. *)
Theorem fallback_calls_well_ordered {P : Pillow} (height width : Z) :
  (0 <= height < 2 ^ 53)%Z -> (0 <= width < 2 ^ 53)%Z ->
  exists c1 c2 c3 : draw_call,
    fallback_calls height width = inr [c1; c2; c3] /\
    (exists box wd, c1 = DrawArc box 90 270 x00 wd) /\
    (exists box wd, c2 = DrawArc box 270 90 x00 wd) /\
    (exists box, c3 = DrawRectangle box x00) /\
    well_ordered_call c1 /\ well_ordered_call c2 /\ well_ordered_call c3.
Proof.
  intros Hh Hw. unfold fallback_calls.
  destruct (int_mul_nonneg width 0.5%float Hw) as (sw & -> & Hsw); [reflexivity..|].
  destruct (int_mul_nonneg height 0.7%float Hh) as (sh & -> & Hsh); [reflexivity..|].
  cbn [ebind]. eexists _, _, _. split; [reflexivity|].
  split; [eauto|]. split; [eauto|]. split; [eauto|].
  assert (0 <= sh / 3)%Z by (apply Z.div_pos; lia).
  assert (2 * sh / 3 <= sh)%Z by (apply Z.div_le_upper_bound; lia).
  assert (sh / 4 <= 3 * sh / 4)%Z by (apply Z.div_le_mono; lia).
  assert (0 <= Z.max 10 (Z.min width height / 20) / 2)%Z by (apply Z.div_pos; lia).
  cbn. repeat split; lia.
Qed.

Lemma fallback_calls_well_ordered_witness :
  exists c1 c2 c3 : draw_call,
    fallback_calls (P := raster_pillow false) 100 100 = inr [c1; c2; c3] /\
    (exists box wd, c1 = DrawArc box 90 270 x00 wd) /\
    (exists box wd, c2 = DrawArc box 270 90 x00 wd) /\
    (exists box, c3 = DrawRectangle box x00) /\
    well_ordered_call c1 /\ well_ordered_call c2 /\ well_ordered_call c3.
Proof.
  apply (fallback_calls_well_ordered (P := raster_pillow false) 100 100); lia.
Defined.

(** X13.  Without any font the letter and the ratio do not matter: when
    no font path loads and the default font fails, two calls with the same
    height and width draw the same image, the geometric S, whatever letter
    and ratio they are given. *)
Theorem fallback_ignores_letter {P : Pillow} (height width : Z)
    (letter1 letter2 : string) (ratio1 ratio2 : float) (size1 size2 : Z) (e : exn)
    (w : world) :
  int_mul (Z.min height width) ratio1 = inr size1 ->
  int_mul (Z.min height width) ratio2 = inr size2 ->
  try_font_paths font_paths size1 = inr None ->
  try_font_paths font_paths size2 = inr None ->
  ImageFont_load_default = inl e ->
  draw_block_letter height width letter1 ratio1 =
    draw_block_letter height width letter2 ratio2 /\
  draw_block_letter height width letter1 ratio1 =
    (img <-? Image_new width height xff ;;
     calls <-? (extent <-? measure_text None letter1 height width ;; 
                fallback_calls height width) ;;
     perform_all calls img) /\
  create_block_letter_s height width letter1 ratio1 w =
    create_block_letter_s height width letter2 ratio2 w.
Proof.
  intros Hs1 Hs2 Hf1 Hf2 Hdef.
  assert (Hdraw : forall letter ratio size,
            int_mul (Z.min height width) ratio = inr size ->
            try_font_paths font_paths size = inr None ->
            draw_block_letter height width letter ratio =
              (img <-? Image_new width height xff ;;
               calls <-? (extent <-? measure_text None letter1 height width ;;
                          fallback_calls height width) ;;
               perform_all calls img)).
  { intros letter ratio size Hs Hf. unfold draw_block_letter.
    destruct (Image_new width height xff) as [|img]; [reflexivity|]. cbn [ebind].
    rewrite Hs. cbn [ebind]. rewrite Hf. cbn [ebind or_default_font].
    rewrite Hdef. unfold measure_text.
    destruct (int_mul width 0.6%float) as [|tw]; [reflexivity|]. cbn [ebind].
    destruct (int_mul height 0.8%float) as [|th]; reflexivity. }
  assert (Heq : draw_block_letter height width letter1 ratio1 =
                draw_block_letter height width letter2 ratio2).
  { rewrite (Hdraw letter1 ratio1 size1 Hs1 Hf1), (Hdraw letter2 ratio2 size2 Hs2 Hf2).
    reflexivity. }
  split; [exact Heq|]. split; [exact (Hdraw letter1 ratio1 size1 Hs1 Hf1)|].
  rewrite !create_block_letter_s_run, Heq. reflexivity.
Qed.

Lemma fallback_ignores_letter_witness :
  draw_block_letter (P := raster_pillow false) 40 30 "S" 0.9%float =
    draw_block_letter (P := raster_pillow false) 40 30 "A" 0.5%float /\
  draw_block_letter (P := raster_pillow false) 40 30 "S" 0.9%float =
    (img <-? Image_new 30 40 xff ;;
     calls <-? (extent <-? measure_text (P := raster_pillow false) None "S" 40 30 ;;
                fallback_calls (P := raster_pillow false) 40 30) ;;
     perform_all calls img) /\
  create_block_letter_s (P := raster_pillow false) 40 30 "S" 0.9%float empty_world =
    create_block_letter_s (P := raster_pillow false) 40 30 "A" 0.5%float empty_world.
Proof.
  apply (fallback_ignores_letter (P := raster_pillow false) 40 30 "S" "A"
           0.9%float 0.5%float 27 15 (OSError "cannot open resource") empty_world).
  - vm_compute. reflexivity.
  - vm_compute. reflexivity.
  - reflexivity.
  - reflexivity.
  - reflexivity.
Defined.

(** X14.  For every size up to 2048 the default font size [int(n * 0.9)]
    is the floor of nine tenths of n and the width of the fallback shape
    [int(W * 0.5)] is half the width rounded down, but its height
    [int(H * 0.7)] is the floor of seven tenths of the height or one less:
    the product is taken in binary floating point, and for a height of 90
    it gives 62, not 63.  None exceeds n. *)
Theorem proportions_floor (n : Z) :
  (0 <= n <= 2048)%Z ->
  int_mul n 0.9%float = inr (9 * n / 10)%Z /\
  int_mul n 0.5%float = inr (n / 2)%Z /\
  (exists c, int_mul n 0.7%float = inr c /\ (7 * n / 10 - 1 <= c <= 7 * n / 10)%Z) /\
  int_mul 90 0.7%float = inr 62%Z /\
  (9 * n / 10 <= n /\ n / 2 <= n /\ 7 * n / 10 <= n)%Z.
Proof.
  intros Hn.
  assert (Hall : forallb (fun k : nat =>
            match int_mul (Z.of_nat k) 0.9%float, int_mul (Z.of_nat k) 0.5%float,
                  int_mul (Z.of_nat k) 0.7%float with
            | inr a, inr b, inr c =>
                (a =? 9 * Z.of_nat k / 10)%Z && (b =? Z.of_nat k / 2)%Z &&
                ((7 * Z.of_nat k / 10 - 1 <=? c)%Z && (c <=? 7 * Z.of_nat k / 10)%Z)
            | _, _, _ => false
            end) (seq 0 2049) = true) by (vm_compute; reflexivity).
  rewrite forallb_forall in Hall.
  specialize (Hall (Z.to_nat n)). rewrite Z2Nat.id in Hall by lia.
  assert (Hin : In (Z.to_nat n) (seq 0 2049)) by (apply in_seq; lia).
  apply Hall in Hin.
  destruct (int_mul n 0.9%float) as [|a]; [discriminate|].
  destruct (int_mul n 0.5%float) as [|b]; [discriminate|].
  destruct (int_mul n 0.7%float) as [|c]; [discriminate|].
  apply andb_prop in Hin as [Hab Hc]. apply andb_prop in Hab as [Ha Hb].
  apply andb_prop in Hc as [Hc1 Hc2].
  apply Z.eqb_eq in Ha, Hb. apply Z.leb_le in Hc1, Hc2. subst.
  split; [reflexivity|]. split; [reflexivity|].
  split; [exists c; split; [reflexivity|lia]|].
  split; [vm_compute; reflexivity|].
  repeat split; apply Z.div_le_upper_bound; lia.
Qed.

Lemma proportions_floor_witness :
  int_mul 100 0.9%float = inr (9 * 100 / 10)%Z /\
  int_mul 100 0.5%float = inr (100 / 2)%Z /\
  (exists c, int_mul 100 0.7%float = inr c /\
             (7 * 100 / 10 - 1 <= c <= 7 * 100 / 10)%Z) /\
  int_mul 90 0.7%float = inr 62%Z /\
  (9 * 100 / 10 <= 100 /\ 100 / 2 <= 100 /\ 7 * 100 / 10 <= 100)%Z.
Proof. apply (proportions_floor 100). lia. Defined.

(** ** The renderers *)





(** ** The pipeline *)



